(** * Attachment content model and session liveness of subflow-task-manager

    A shallow embedding of
    - [src/src/services/fileUploadService.ts] (upload naming, storage keys,
      [extractFileUrls]),
    - the save paths of [EnhancedSubtaskItem.tsx] and [SubtaskForm],
    - the PDF content cleaning of [src/src/utils/pdfExport.ts],
    - [src/src/hooks/useSessionManager.ts] (validation, check, cleanup).

    JavaScript strings are sequences of UTF-16 code units; they are modelled
    as [list N].  Regular expressions are run by a small backtracking matcher
    written in the continuation-passing style of the ECMAScript
    specification. *)

From Stdlib Require Import List Bool Arith NArith ZArith Lia String Ascii Permutation.
Import ListNotations.

Definition ustr := list N.

(** A Rocq string literal read as a sequence of code units (used only for
    ASCII literals of the source). *)
Definition u (s : string) : ustr := map N_of_ascii (list_ascii_of_string s).

Definition nl : N := 10.

Fixpoint ustr_eqb (a b : ustr) : bool :=
  match a, b with
  | [], [] => true
  | x :: a', y :: b' => N.eqb x y && ustr_eqb a' b'
  | _, _ => false
  end.

Local Open Scope N_scope.

(** The class [\s] of ECMAScript: WhiteSpace and LineTerminator. *)
Definition is_ws (c : N) : bool :=
  ((9 <=? c) && (c <=? 13)) || (c =? 32) || (c =? 160) || (c =? 5760)
  || ((8192 <=? c) && (c <=? 8202)) || (c =? 8232) || (c =? 8233)
  || (c =? 8239) || (c =? 8287) || (c =? 12288) || (c =? 65279).

(** LineTerminator: what [.] does not match without the [s] flag. *)
Definition is_line_terminator (c : N) : bool :=
  (c =? 10) || (c =? 13) || (c =? 8232) || (c =? 8233).

Local Close Scope N_scope.

(** [String.prototype.startsWith] *)
Fixpoint starts_with (s p : ustr) : bool :=
  match p, s with
  | [], _ => true
  | x :: p', y :: s' => N.eqb x y && starts_with s' p'
  | _ :: _, [] => false
  end.

(** [String.prototype.includes] *)
Fixpoint includes (s p : ustr) : bool :=
  starts_with s p || match s with [] => false | _ :: s' => includes s' p end.

(** [String.prototype.trim] *)
Fixpoint trim_start (s : ustr) : ustr :=
  match s with
  | c :: s' => if is_ws c then trim_start s' else s
  | [] => []
  end.
Definition trim (s : ustr) : ustr := rev (trim_start (rev (trim_start s))).

(** [s.split(sep)] for a one-unit separator. *)
Fixpoint split_on (sep : N) (s : ustr) : list ustr :=
  match s with
  | [] => [[]]
  | c :: s' =>
      if N.eqb c sep then [] :: split_on sep s'
      else match split_on sep s' with
           | w :: ws => (c :: w) :: ws
           | [] => [[c]]
           end
  end.

(** ** A backtracking regular-expression matcher *)
Module Regex.

Inductive regex : Type :=
| RLit (l : ustr)               (* a sequence of literal code units *)
| RPlus (cls : N -> bool)       (* greedy [cls]+ over one code unit *)
| RLazyStar (cls : N -> bool)   (* lazy [cls]*? over one code unit *)
| RCat (r1 r2 : regex)
| RGroup (g : nat) (r : regex). (* capturing group number g *)

Definition caps := list (nat * ustr).

Fixpoint strip_prefix (l t : ustr) : option ustr :=
  match l, t with
  | [], _ => Some t
  | c :: l', d :: t' => if N.eqb c d then strip_prefix l' t' else None
  | _ :: _, [] => None
  end.

(** Length of the longest prefix of [t] inside [cls]. *)
Fixpoint run (cls : N -> bool) (t : ustr) : nat :=
  match t with
  | [] => 0
  | c :: t' => if cls c then S (run cls t') else 0
  end.

Section Repeat.
Context {R : Type}.

(** A greedy one-unit repetition tries the longest run first, then shorter
    ones down to one unit. *)
Fixpoint plus_try (j : nat) (t : ustr) (k : ustr -> option R) : option R :=
  match j with
  | 0 => None
  | S j' =>
      match k (skipn (S j') t) with
      | Some x => Some x
      | None => plus_try j' t k
      end
  end.

(** A lazy one-unit repetition tries zero units first, then one more at a
    time while the class allows. *)
Fixpoint lazy_try (n : nat) (t : ustr) (k : ustr -> option R) : option R :=
  match k t with
  | Some x => Some x
  | None =>
      match n, t with
      | S n', _ :: t' => lazy_try n' t' k
      | _, _ => None
      end
  end.
End Repeat.

(** [m r t cs k]: match [r] at the suffix [t] of the input, then run the
    continuation [k] on the remaining suffix. *)
Fixpoint m (r : regex) (t : ustr) (cs : caps)
    (k : ustr -> caps -> option (ustr * caps)) : option (ustr * caps) :=
  match r with
  | RLit l => match strip_prefix l t with Some t' => k t' cs | None => None end
  | RPlus cls => plus_try (run cls t) t (fun t' => k t' cs)
  | RLazyStar cls => lazy_try (run cls t) t (fun t' => k t' cs)
  | RCat r1 r2 => m r1 t cs (fun t' cs' => m r2 t' cs' k)
  | RGroup g r1 =>
      m r1 t cs (fun t' cs' => k t' ((g, firstn (List.length t - List.length t') t) :: cs'))
  end.

(** A match attempt at one position: the suffix after the match and the
    captures. *)
Definition match_at (r : regex) (t : ustr) : option (ustr * caps) :=
  m r t [] (fun e cs => Some (e, cs)).

Inductive item : Type :=
| Chr (c : N)                   (* a code unit outside every match *)
| Mt (text : ustr) (cs : caps). (* one match *)

(** The scan of a global ([/g]) regular expression from [lastIndex = 0]:
    at each position try a match; after a match continue at its end (after
    an empty match, one position further).  [skip] counts the code units of
    the current match still to pass. *)
Fixpoint segs (r : regex) (skip : nat) (t : ustr) : list item :=
  match t with
  | [] => match match_at r [] with Some (_, cs) => [Mt [] cs] | None => [] end
  | c :: t' =>
      match skip with
      | S k => segs r k t'
      | 0 =>
          match match_at r (c :: t') with
          | Some (e, cs) =>
              match List.length (c :: t') - List.length e with
              | 0 => Mt [] cs :: Chr c :: segs r 0 t'
              | S k => Mt (firstn (S k) (c :: t')) cs :: segs r k t'
              end
          | None => Chr c :: segs r 0 t'
          end
      end
  end.

(** [content.match(re)] for a global [re] (with [|| []]). *)
Definition matches (r : regex) (t : ustr) : list ustr :=
  flat_map (fun it => match it with Mt s _ => [s] | Chr _ => [] end) (segs r 0 t).

(** [while ((match = re.exec(content)) !== null) urls.push(match[1])] *)
Definition group1s (r : regex) (t : ustr) : list ustr :=
  flat_map (fun it => match it with
                      | Mt _ cs => match find (fun p => Nat.eqb (fst p) 1) cs with
                                   | Some (_, s) => [s]
                                   | None => []
                                   end
                      | Chr _ => []
                      end) (segs r 0 t).

(** [content.replace(re, repl)] for a global [re] and a replacement without
    [$] patterns. *)
Definition replace_all (r : regex) (repl : ustr) (t : ustr) : ustr :=
  flat_map (fun it => match it with Mt _ _ => repl | Chr c => [c] end) (segs r 0 t).

End Regex.
Import Regex.

(** ** fileUploadService.extractFileUrls *)

Definition not_ws (c : N) : bool := negb (is_ws c).
Definition not_ws_paren (c : N) : bool := negb (is_ws c) && negb (N.eqb c 41).

(** ["https://"] *)
Definition lit_https : ustr := Eval cbv in u "https://".
(** ["/subtask-attachments/"] *)
Definition lit_segment : ustr := Eval cbv in u "/subtask-attachments/".
(** ["<!-- attachment: "] *)
Definition lit_open : ustr := Eval cbv in u "<!-- attachment: ".
(** [" -->"] *)
Definition lit_close : ustr := Eval cbv in u " -->".

(** [/https:\/\/[^\s\)]+\/subtask-attachments\/[^\s\)]+/g] *)
Definition fileUrlRegex : regex :=
  RCat (RLit lit_https)
       (RCat (RPlus not_ws_paren) (RCat (RLit lit_segment) (RPlus not_ws_paren))).

(** [/<!-- attachment: (https:\/\/[^\s]+) -->/g] *)
Definition commentRegex : regex :=
  RCat (RLit lit_open)
       (RCat (RGroup 1 (RCat (RLit lit_https) (RPlus not_ws))) (RLit lit_close)).

(** [[...new Set(urls)]]: insertion order of first occurrences. *)
Definition set_add (acc : list ustr) (x : ustr) : list ustr :=
  if existsb (ustr_eqb x) acc then acc else acc ++ [x].
Definition dedup (l : list ustr) : list ustr := fold_left set_add l [].

Definition comment_urls (content : ustr) : list ustr := group1s commentRegex content.
Definition markdown_urls (content : ustr) : list ustr := matches fileUrlRegex content.

Definition extractFileUrls (content : ustr) : list ustr :=
  dedup (comment_urls content ++ markdown_urls content).

(** [isSubtaskAttachment] *)
Definition isSubtaskAttachment (url : ustr) : bool := includes url lit_segment.

(** ** The save paths *)

Record UploadedFile := mkFile { url : ustr; name : ustr; size : N; type_ : ustr }.

(** [arr.join(sep)] *)
Fixpoint join (sep : ustr) (l : list ustr) : ustr :=
  match l with
  | [] => []
  | [x] => x
  | x :: l' => x ++ sep ++ join sep l'
  end.

(** [`![${file.name}](${file.url})`] *)
Definition file_link (f : UploadedFile) : ustr :=
  u "![" ++ name f ++ u "](" ++ url f ++ u ")".

(** The content computed by [handleSave] (and [SubtaskForm.handleSubmit]). *)
Definition content_with_files (content : ustr) (attached : list UploadedFile) : ustr :=
  match attached with
  | [] => content
  | _ =>
      let fileLinks := join [nl] (map file_link attached) in
      match content with
      | [] => fileLinks
      | _ => content ++ [nl; nl] ++ fileLinks
      end
  end.

(** State of an [EnhancedSubtaskItem]. *)
Record EditState := mkEdit {
  isEditing : bool;
  editName : ustr;
  editContent : ustr;
  attachedFiles : list UploadedFile }.

Definition handleEdit (st : EditState) (subtask_name subtask_content : ustr) : EditState :=
  mkEdit true subtask_name subtask_content (attachedFiles st).

Definition handleFileUploaded (st : EditState) (f : UploadedFile) : EditState :=
  mkEdit (isEditing st) (editName st) (editContent st) (attachedFiles st ++ [f]).

(** [handleSave]: the new state and the [(name, content)] passed to
    [onUpdateSubtask], if any. *)
Definition handleSave (st : EditState) : EditState * option (ustr * ustr) :=
  match trim (editName st) with
  | [] => (st, None)
  | _ =>
      let contentWithFiles := content_with_files (editContent st) (attachedFiles st) in
      (mkEdit false (editName st) (editContent st) [],
       Some (editName st, contentWithFiles))
  end.

(** State of a [SubtaskForm]. *)
Record FormState := mkForm { formName : ustr; formContent : ustr; formFiles : list UploadedFile }.

Definition form_handleFileUploaded (st : FormState) (f : UploadedFile) : FormState :=
  mkForm (formName st) (formContent st) (formFiles st ++ [f]).

(** [SubtaskForm.handleSubmit]: the new state and the data passed to [onAdd]. *)
Definition handleSubmit (st : FormState) : FormState * option (ustr * ustr) :=
  match trim (formName st) with
  | [] => (st, None)
  | _ =>
      (mkForm [] [] [],
       Some (formName st, content_with_files (formContent st) (formFiles st)))
  end.

Definition U1 : ustr := Eval cbv in
  u "https://proj.supabase.co/storage/v1/object/public/subtask-attachments/uid/1f.png".
Definition U2 : ustr := Eval cbv in
  u "https://proj.supabase.co/storage/v1/object/public/subtask-attachments/uid/2e.pdf".

(** The two uploads of the scenario: [a.png] at url [v1], [b.pdf] at [v2]. *)
Definition file_a (v1 : ustr) : UploadedFile := mkFile v1 (u "a.png") 10 (u "image/png").
Definition file_b (v2 : ustr) : UploadedFile := mkFile v2 (u "b.pdf") 20 (u "application/pdf").

(** Open the editor on a subtask named [task] with empty content, upload
    the two files. *)
Definition scenario_with (v1 v2 : ustr) : EditState :=
  handleFileUploaded
    (handleFileUploaded (handleEdit (mkEdit false [] [] []) (u "task") []) (file_a v1))
    (file_b v2).

Definition scenario_state : EditState := scenario_with U1 U2.

(** The same uploads in a fresh [SubtaskForm]. *)
Definition form_scenario_with (v1 v2 : ustr) : FormState :=
  form_handleFileUploaded
    (form_handleFileUploaded (mkForm (u "task") [] []) (file_a v1)) (file_b v2).

(** The HTML-comment sentinel form [<!-- attachment: v -->]. *)
Definition sentinel (v : ustr) : ustr := lit_open ++ v ++ lit_close.

(** One edit session of a mounted [EnhancedSubtaskItem]: open the editor on
    the persisted [content], upload the files [R], save; the result is the
    content handed to [onUpdateSubtask] (the persisted one when nothing is
    saved). *)
Definition edit_round (subtask_name content : ustr) (R : list UploadedFile) : ustr :=
  match snd (handleSave (fold_left handleFileUploaded R
                           (handleEdit (mkEdit false [] [] []) subtask_name content))) with
  | Some (_, c') => c'
  | None => content
  end.

(** Successive edit sessions, one batch of uploads each. *)
Definition edit_rounds (subtask_name content : ustr) (Rs : list (list UploadedFile)) : ustr :=
  fold_left (edit_round subtask_name) Rs content.

(** ** pdfExport: cleaning a description for the PDF *)

Definition not_lt (c : N) : bool := negb (is_line_terminator c).
Definition any_unit (c : N) : bool := true.

Definition lit_img_open : ustr := Eval cbv in u "![".
Definition lit_img_mid : ustr := Eval cbv in u "](".
Definition lit_rparen : ustr := Eval cbv in u ")".
Definition lit_cm_open : ustr := Eval cbv in u "<!--".
Definition lit_cm_close : ustr := Eval cbv in u "-->".
Definition lit_image : ustr := Eval cbv in u "[image]".

(** [/!\[.*?\]\(.*?\)/g] ([.] excludes line terminators) *)
Definition imageRegex : regex :=
  RCat (RLit lit_img_open)
       (RCat (RLazyStar not_lt)
             (RCat (RLit lit_img_mid) (RCat (RLazyStar not_lt) (RLit lit_rparen)))).

(** [/<!--.*?-->/gs] ([s]: [.] matches every code unit) *)
Definition htmlCommentRegex : regex :=
  RCat (RLit lit_cm_open) (RCat (RLazyStar any_unit) (RLit lit_cm_close)).

(** The task description:
    [content.replace(/!\[.*?\]\(.*?\)/g, '[image]').replace(/<!--.*?-->/gs, '')] *)
Definition clean_task_content (content : ustr) : ustr :=
  replace_all htmlCommentRegex [] (replace_all imageRegex lit_image content).

(** A subtask description: the same, then [.trim()]. *)
Definition clean_subtask_content (content : ustr) : ustr := trim (clean_task_content content).

(** Descriptions built from plain text, image links and HTML comments:
    a leading text, then pieces each followed by a text. *)
Inductive piece : Type :=
| Img (alt url : ustr)
| Cmt (body : ustr).

Definition render_piece (p : piece) : ustr :=
  match p with
  | Img a v => lit_img_open ++ a ++ lit_img_mid ++ v ++ lit_rparen
  | Cmt b => lit_cm_open ++ b ++ lit_cm_close
  end.

Definition render_rest (ps : list (piece * ustr)) : ustr :=
  List.concat (map (fun pt => render_piece (fst pt) ++ snd pt) ps).

(** What the description should read as: images as [[image]], comments gone. *)
Definition display_piece (p : piece) : ustr :=
  match p with Img _ _ => lit_image | Cmt _ => [] end.

Definition display_rest (ps : list (piece * ustr)) : ustr :=
  List.concat (map (fun pt => display_piece (fst pt) ++ snd pt) ps).

(** After the first replacement only: images as [[image]], comments kept. *)
Definition pass1_piece (p : piece) : ustr :=
  match p with Img _ _ => lit_image | Cmt b => render_piece (Cmt b) end.

Definition pass1_rest (ps : list (piece * ustr)) : ustr :=
  List.concat (map (fun pt => pass1_piece (fst pt) ++ snd pt) ps).

(** Plain text: no [![] and no [<!--]. *)
Definition text_ok (t : ustr) : Prop :=
  includes t lit_img_open = false /\ includes t lit_cm_open = false.

(** An image: alt text without [](] and a url without [)], both on one
    line; a comment: a body without [-->] and without [![]. *)
Definition piece_ok (p : piece) : Prop :=
  match p with
  | Img a v => forallb not_lt a = true /\ includes a lit_img_mid = false /\
               forallb not_lt v = true /\ includes v lit_rparen = false
  | Cmt b => includes b lit_cm_close = false /\ includes b lit_img_open = false
  end.

Definition is_some {A} (o : option A) : bool := match o with Some _ => true | None => false end.

(** [P] occurs in [s]. *)
Definition occurs (P s : ustr) : Prop := exists x y, s = x ++ P ++ y.

(** ** fileUploadService: naming and storage keys *)

(** The part of a browser [File] the service reads. *)
Record File := mkFileIn { file_name : ustr; file_type : ustr; file_size : N }.

(** A decimal digit. *)
Definition is_digit (c : N) : bool := N.leb 48 c && N.leb c 57.

(** [s.replace(/[:.]/g, '-')] *)
Definition replace_colon_dot (s : ustr) : ustr :=
  map (fun c => if N.eqb c 58 || N.eqb c 46 then 45%N else c) s.

(** [arr[i] || d] for an array of strings: an absent or empty element
    falls back to [d]. *)
Definition elem_or (l : list ustr) (i : nat) (d : ustr) : ustr :=
  match nth_error l i with
  | Some (c :: s) => c :: s
  | _ => d
  end.

(** [arr.pop()] on the (never empty) result of [split]. *)
Definition pop_last (l : list ustr) : ustr := last l [].

(** The name test of [uploadSubtaskAttachment]:
    [fileName === 'image.png' || fileName === 'blob' || !fileName
     || fileName.startsWith('image')] *)
Definition is_generic_name (fileName : ustr) : bool :=
  ustr_eqb fileName (u "image.png") || ustr_eqb fileName (u "blob")
  || match fileName with [] => true | _ => false end
  || starts_with fileName (u "image").

(** The [displayName]: [iso] is [new Date().toISOString()]. *)
Definition display_name (iso : ustr) (file : File) : ustr :=
  let fileName := file_name file in
  if is_generic_name fileName then
    let timestamp := replace_colon_dot (firstn 19 iso) in
    let extension := elem_or (split_on 47 (file_type file)) 1 (u "png") in
    u "screenshot-" ++ timestamp ++ u "." ++ extension
  else fileName.

(** [`${userId}/${fileId}.${fileName.split('.').pop()}`] *)
Definition storage_path (userId fileId fileName : ustr) : ustr :=
  userId ++ u "/" ++ fileId ++ u "." ++ pop_last (split_on 46 fileName).

(** [uploadSubtaskAttachment file userId], with [fileId = uuidv4()], the
    clock's ISO string [iso], the storage's answer [upload_error] and its
    public-url function: the key handed to [upload] and the result ([None]
    when it throws). *)
Definition uploadSubtaskAttachment (iso fileId : ustr) (upload_error : bool)
    (publicUrl : ustr -> ustr) (file : File) (userId : ustr)
    : ustr * option UploadedFile :=
  let fileName := display_name iso file in
  let storagePath := storage_path userId fileId fileName in
  (storagePath,
   if upload_error then None
   else Some (mkFile (publicUrl storagePath) fileName (file_size file) (file_type file))).

(** [deleteSubtaskAttachment url userId]: the key handed to [remove]. *)
Definition delete_path (url userId : ustr) : ustr :=
  let urlParts := split_on 47 url in
  userId ++ u "/" ++ last urlParts [].

(** ** useSessionManager *)

Local Open Scope Z_scope.

(** The decoded token payload: its [exp] claim, when it is a number. *)
Record payload := mkPayload { exp : option Z }.

(** JavaScript truthiness of a number claim: present and non-zero. *)
Definition truthy (o : option Z) : bool :=
  match o with Some e => negb (Z.eqb e 0) | None => false end.

(** [expirationTime < currentTime] on a truthy claim. *)
Definition lt_claim (o : option Z) (t : Z) : bool :=
  match o with Some e => Z.ltb e t | None => false end.

Local Close Scope Z_scope.

(** Observable effects of the hook. *)
Inductive effect : Type := GetUser | Cleanup | SignOut.

(** What [supabase.auth.getUser()] resolves to. *)
Inductive auth_response : Type := UserFound | NoUser | AuthError | AuthThrows.

Record SessionState := mkSS { retryCount : nat; effects : list effect }.

Record session := mkSession { access_token : option ustr }.

(** [DEFAULT_CONFIG.maxRetries] *)
Definition maxRetries : nat := 3.

Definition cleanup_effect (st : SessionState) : SessionState :=
  mkSS (retryCount st) (effects st ++ [Cleanup]).

Definition signOut (st : SessionState) : SessionState :=
  mkSS (retryCount st) (effects st ++ [SignOut]).

Section SessionManager.

(** [JSON.parse(atob(seg))] read at [.exp]; [None] when it throws. *)
Variable decode : option ustr -> option payload.

(** [validateSession] at time [now_ms] ([Date.now()]), the provider
    answering [resp]. *)
Definition validateSession (tok : option ustr) (now_ms : Z) (resp : auth_response)
    (st : SessionState) : bool * SessionState :=
  match tok with
  | None | Some [] => (false, st)
  | Some t =>
      match decode (nth_error (split_on 46 t) 1) with
      | None => (false, st)
      | Some p =>
          let currentTime := Z.div now_ms 1000 in
          if truthy (exp p) && lt_claim (exp p) currentTime then (false, st)
          else
            let st1 := mkSS (retryCount st) (effects st ++ [GetUser]) in
            match resp with
            | UserFound => (true, mkSS 0 (effects st1))
            | _ => (false, st1)
            end
      end
  end.

(** [performSessionCheck]; [cleanupExpiredSessions] is recorded as the
    [Cleanup] effect (its action on the stores is [cleanupExpiredSessions]
    below). *)
Definition performSessionCheck (sess : option session) (now_ms : Z) (resp : auth_response)
    (st : SessionState) : SessionState :=
  match sess with
  | None => cleanup_effect st
  | Some s =>
      let (isValid, st1) := validateSession (access_token s) now_ms resp st in
      if isValid then st1
      else
        let st2 := mkSS (S (retryCount st1)) (effects st1) in
        if Nat.leb maxRetries (retryCount st2)
        then mkSS 0 (effects (signOut (cleanup_effect st2)))
        else st2
  end.

(** Successive checks, one [(now_ms, resp)] per tick or resume. *)
Definition run_checks (sess : option session) (ticks : list (Z * auth_response))
    (st : SessionState) : SessionState :=
  fold_left (fun st i => performSessionCheck sess (fst i) (snd i) st) ticks st.

(** The answer of [validateSession] (it does not depend on the counter). *)
Definition validation_outcome (tok : option ustr) (now_ms : Z) (resp : auth_response) : bool :=
  fst (validateSession tok now_ms resp (mkSS 0 [])).

End SessionManager.

Definition signouts (st : SessionState) : nat :=
  List.length (filter (fun e => match e with SignOut => true | _ => false end) (effects st)).

(** ** cleanupExpiredSessions *)

(** A parsed JSON value as the pass reads it: [null] (reading a property
    throws), an object with its [expires_at] and [exp] members, or any
    other value (its members are [undefined]). *)
Inductive json : Type := JNull | JObj (expires_at exp : option Z) | JOther.

(** A [Storage] as its entries in [Object.keys] order. *)
Definition store := list (ustr * ustr).

Fixpoint getItem (k : ustr) (s : store) : option ustr :=
  match s with
  | [] => None
  | (k', v) :: s' => if ustr_eqb k' k then Some v else getItem k s'
  end.

Definition removeItem (k : ustr) (s : store) : store :=
  filter (fun kv => negb (ustr_eqb (fst kv) k)) s.

Definition local_auth_key (key : ustr) : bool :=
  includes key (u "supabase") || includes key (u "auth") || includes key (u "session")
  || includes key (u "token").

Definition session_auth_key (key : ustr) : bool :=
  includes key (u "supabase") || includes key (u "auth") || includes key (u "session").

Section Cleanup.

(** [JSON.parse]; [None] when it throws. *)
Variable parse : ustr -> option json.

(** Whether the body of the loop removes the entry [(key, item)]; [on_corrupt]
    is what the [catch] does. *)
Definition drop_entry (on_corrupt : ustr -> bool) (now_ms : Z) (key item : ustr) : bool :=
  match item with
  | [] => false
  | _ =>
      match parse item with
      | None | Some JNull => on_corrupt key
      | Some (JObj ea ex) =>
          if truthy ea || truthy ex then
            let expirationTime := if truthy ea then ea else ex in
            lt_claim expirationTime (Z.div now_ms 1000)
          else false
      | Some JOther => false
      end
  end.

(** The local [catch]: [if (key.includes('supabase.auth.token')) remove]. *)
Definition local_on_corrupt (key : ustr) : bool := includes key (u "supabase.auth.token").

(** The session [catch]: remove. *)
Definition session_on_corrupt (key : ustr) : bool := true.

(** One iteration of a [for (const key of keys)] loop. *)
Definition clean_key (on_corrupt : ustr -> bool) (now_ms : Z) (s : store) (key : ustr) : store :=
  match getItem key s with
  | Some item => if drop_entry on_corrupt now_ms key item then removeItem key s else s
  | None => s
  end.

Definition clean_store (is_auth on_corrupt : ustr -> bool) (now_ms : Z) (s : store) : store :=
  fold_left (clean_key on_corrupt now_ms) (filter is_auth (map fst s)) s.

(** [cleanupExpiredSessions] on [(localStorage, sessionStorage)]. *)
Definition cleanupExpiredSessions (now_ms : Z) (ls ss : store) : store * store :=
  (clean_store local_auth_key local_on_corrupt now_ms ls,
   clean_store session_auth_key session_on_corrupt now_ms ss).

End Cleanup.


(** ** EnhancedSubtaskItem and SubtaskForm: removing, cancelling, copying *)

(** [handleRemoveFile]: [prev.filter(file => file.url !== fileToRemove.url)] *)
Definition handleRemoveFile (st : EditState) (fileToRemove : UploadedFile) : EditState :=
  mkEdit (isEditing st) (editName st) (editContent st)
    (filter (fun file => negb (ustr_eqb (url file) (url fileToRemove))) (attachedFiles st)).

(** [SubtaskForm.handleRemoveFile] *)
Definition form_handleRemoveFile (st : FormState) (fileToRemove : UploadedFile) : FormState :=
  mkForm (formName st) (formContent st)
    (filter (fun file => negb (ustr_eqb (url file) (url fileToRemove))) (formFiles st)).

(** [handleCancel] on a subtask named [subtask_name] with content
    [subtask_content] ([subtask.content || '']). *)
Definition handleCancel (st : EditState) (subtask_name subtask_content : ustr) : EditState :=
  mkEdit false subtask_name subtask_content [].

(** [s.split(/\r?\n/)[0]]: the units before the first match of [\r?\n],
    which starts at the first [\n], or at the [\r] just before it. *)
Fixpoint first_line (s : ustr) : ustr :=
  match s with
  | [] => []
  | c :: s' =>
      if N.eqb c 10 then []
      else if N.eqb c 13 && starts_with s' [10%N] then []
      else c :: first_line s'
  end.

(** The toasts of the copy handler. *)
Inductive copy_toast : Type := NoDescription | FirstLineCopied | CopyFailed.

(** [handleCopyDescription] for [subtask.content] ([None] when it is null
    or undefined), [write_ok] telling whether [navigator.clipboard.writeText]
    resolves: the text handed to [writeText], if any, and the toast shown. *)
Definition handleCopyDescription (content : option ustr) (write_ok : bool)
    : option ustr * copy_toast :=
  match content with
  | None => (None, NoDescription)
  | Some c =>
      match trim c with
      | [] => (None, NoDescription)
      | _ => (Some (first_line c), if write_ok then FirstLineCopied else CopyFailed)
      end
  end.

(** [existingFileObjects]: the attachments shown for the saved content. *)
Section ExistingFiles.

(** [String.prototype.toLowerCase] *)
Variable toLowerCase : ustr -> ustr.

(** [['jpg', 'jpeg', 'png', 'gif', 'webp']] *)
Definition image_exts : list ustr := [u "jpg"; u "jpeg"; u "png"; u "gif"; u "webp"].

(** The object built for one extracted [url]. *)
Definition existing_file_object (v : ustr) : UploadedFile :=
  let fileName := elem_or (split_on 63 (last (split_on 47 v) [])) 0 (u "attachment") in
  let extension := toLowerCase (last (split_on 46 fileName) []) in
  let mimeType :=
    if starts_with extension (u "image") || existsb (ustr_eqb extension) image_exts
    then u "image/" ++ extension
    else u "application/octet-stream" in
  mkFile v fileName 0 mimeType.

Definition existingFileObjects (content : ustr) : list UploadedFile :=
  map existing_file_object (extractFileUrls content).

End ExistingFiles.

(** ** FileUpload *)

(** The toasts of [handleFileSelect]. *)
Inductive upload_toast : Type := FileTooLarge | FileUploadedToast | UploadFailed.

(** [FileUpload.handleFileSelect file] with the prop [maxSize] (in MB), the
    signed-in user's id [user] ([None] when [getUser] gives no user), and
    the arguments of [uploadSubtaskAttachment]: the storage key written, the
    file handed to [onFileUploaded], and the toast. *)
Definition handleFileSelect (maxSize : N) (iso fileId : ustr) (upload_error : bool)
    (publicUrl : ustr -> ustr) (user : option ustr) (file : File)
    : option ustr * option UploadedFile * upload_toast :=
  if N.ltb (maxSize * 1024 * 1024) (file_size file) then (None, None, FileTooLarge)
  else
    match user with
    | None => (None, None, UploadFailed)
    | Some uid =>
        let (storagePath, res) := uploadSubtaskAttachment iso fileId upload_error publicUrl file uid in
        match res with
        | Some f => (Some storagePath, Some f, FileUploadedToast)
        | None => (Some storagePath, None, UploadFailed)
        end
    end.

(** One file selected in the [FileUpload] of an open [EnhancedSubtaskItem],
    whose [onFileUploaded] is [handleFileUploaded]. *)
Record selection := mkSelection {
  sel_iso : ustr; sel_fileId : ustr; sel_error : bool; sel_user : option ustr; sel_file : File }.

Definition select_file (maxSize : N) (publicUrl : ustr -> ustr) (st : EditState) (ev : selection)
    : EditState :=
  match handleFileSelect maxSize (sel_iso ev) (sel_fileId ev) (sel_error ev) publicUrl
          (sel_user ev) (sel_file ev) with
  | (_, Some f, _) => handleFileUploaded st f
  | _ => st
  end.

(** ** pdfExport: file name and page layout *)

(** A unit matched by [/[a-z0-9]/i]: without the [u] flag, case folding
    maps no unit outside ASCII into the class. *)
Definition ascii_alnum (c : N) : bool :=
  (N.leb 48 c && N.leb c 57) || (N.leb 65 c && N.leb c 90) || (N.leb 97 c && N.leb c 122).

(** [`${task.name.replace(/[^a-z0-9]/gi, '_').substring(0, 50)}_${date}.pdf`]
    with [date = format(new Date(), 'yyyyMMdd')]. *)
Definition pdf_file_name (task_name date : ustr) : ustr :=
  firstn 50 (map (fun c => if ascii_alnum c then c else 95%N) task_name)
    ++ u "_" ++ date ++ u ".pdf".

(** What the document receives: a text line or a rule at a height, or a
    new page. Heights are in half-millimetres, so [fontSize * 0.5] is whole:
    the margin 20 is 40, the page-break bound 280 is 560. *)
Inductive draw : Type := DrawText (line : ustr) (y : Z) | DrawLine (y : Z) | NewPage.

Record layout := mkLayout { yPosition : Z; drawn : list draw }.

(** The three steps [exportTaskToPdf] lays out the page with:
    [addText text fontSize], [addLine ()] and [yPosition += 3]. *)
Inductive pdf_op : Type := OpText (text : ustr) (fontSize : Z) | OpLine | OpGap.

Section Layout.

(** [doc.splitTextToSize(text, contentWidth)] at the current font size. *)
Variable splitTextToSize : ustr -> Z -> list ustr.

(** [if (yPosition > 280) { doc.addPage(); yPosition = 20; }] *)
Definition page_break (st : layout) : layout :=
  if Z.ltb 560 (yPosition st) then mkLayout 40 (drawn st ++ [NewPage]) else st.

(** One iteration of [lines.forEach] in [addText]. *)
Definition add_text_line (fontSize : Z) (st : layout) (line : ustr) : layout :=
  let st1 := page_break st in
  mkLayout (yPosition st1 + fontSize) (drawn st1 ++ [DrawText line (yPosition st1)]).

Definition addText (text : ustr) (fontSize : Z) (st : layout) : layout :=
  let st1 := fold_left (add_text_line fontSize) (splitTextToSize text fontSize) st in
  mkLayout (yPosition st1 + 4) (drawn st1).

Definition addLine (st : layout) : layout :=
  let st1 := page_break st in
  mkLayout (yPosition st1 + 10) (drawn st1 ++ [DrawLine (yPosition st1)]).

Definition run_op (st : layout) (op : pdf_op) : layout :=
  match op with
  | OpText text fontSize => addText text fontSize st
  | OpLine => addLine st
  | OpGap => mkLayout (yPosition st + 6) (drawn st)
  end.

(** A run of steps from [yPosition = 20] on an empty document. *)
Definition layout_ops (ops : list pdf_op) : layout := fold_left run_op ops (mkLayout 40 []).

(** The whole page layout of [exportTaskToPdf]: the body steps, then the
    footer, [yPosition = doc.internal.pageSize.getHeight() - 15] and one
    [doc.text(footer, margin, yPosition)], with [pageHeight] in millimetres
    (297 for the default A4 page). *)
Definition exportTaskToPdf_layout (pageHeight : Z) (footer : ustr) (ops : list pdf_op) : layout :=
  let st := layout_ops ops in
  let y := (2 * pageHeight - 30)%Z in
  mkLayout y (drawn st ++ [DrawText footer y]).

End Layout.

(** The height a drawing is made at, if any. *)
Definition draw_y (d : draw) : option Z :=
  match d with DrawText _ y | DrawLine y => Some y | NewPage => None end.

(** The font size of a step, if it has one. *)
Definition op_font_size (op : pdf_op) : Z :=
  match op with OpText _ fontSize => fontSize | _ => 0 end.

(** The text lines among the drawings, in order. *)
Definition drawn_texts (ds : list draw) : list ustr :=
  flat_map (fun d => match d with DrawText line _ => [line] | _ => [] end) ds.

(** The lines a step hands to [doc.text]. *)
Definition op_lines (splitTextToSize : ustr -> Z -> list ustr) (op : pdf_op) : list ustr :=
  match op with OpText text fontSize => splitTextToSize text fontSize | _ => [] end.

(** [j] is a place where [/subtask-attachments/] followed by at least one
    more unit of the class can be read. *)
Definition seg_at (u0 : ustr) (j : nat) : bool :=
  match strip_prefix lit_segment (skipn j u0) with
  | Some w => negb (Nat.eqb (run not_ws_paren w) 0)
  | None => false
  end.

(** An attachment url as the object store hands it out:
    [https://<a>/subtask-attachments/<b>] with [a], [b] non-empty and no
    whitespace or [)] anywhere. *)
Definition wf_url (v : ustr) : Prop :=
  exists a b, v = lit_https ++ a ++ lit_segment ++ b /\ a <> [] /\ b <> [] /\
              forallb not_ws_paren (a ++ b) = true.

(** A reference the extractor can recover: a well-formed url and a display
    name that does not contain [https://]. *)
Definition wf_file (f : UploadedFile) : Prop :=
  wf_url (url f) /\ includes (name f) lit_https = false.

(** Closes goals [~ In c l] on literals. *)
Ltac notin := let H := fresh in
  intro H; cbv [In lit_open lit_https lit_close lit_segment nl lit_img_open lit_img_mid lit_rparen
        lit_cm_open lit_cm_close lit_image] in H;
  repeat destruct H as [H|H]; try discriminate; try contradiction.

Lemma ustr_eqb_spec a b : ustr_eqb a b = true <-> a = b.
Proof.
  revert b; induction a as [|x a IH]; intros [|y b]; simpl; split; intro H;
    try discriminate; try reflexivity.
  - apply andb_prop in H as [H1 H2]. apply N.eqb_eq in H1. apply IH in H2. now subst.
  - injection H as -> ->. rewrite N.eqb_refl. simpl. now apply IH.
Qed.

Lemma existsb_eqb_in x l : existsb (ustr_eqb x) l = true <-> In x l.
Proof.
  rewrite existsb_exists. split.
  - intros [y [Hy He]]. apply ustr_eqb_spec in He. now subst.
  - intros H. exists x. split; [exact H | now apply ustr_eqb_spec].
Qed.

Lemma strip_prefix_app l t : strip_prefix l (l ++ t) = Some t.
Proof. induction l as [|c l IH]; simpl; [reflexivity | now rewrite N.eqb_refl]. Qed.

Lemma strip_prefix_some l t t' : strip_prefix l t = Some t' -> t = l ++ t'.
Proof.
  revert t; induction l as [|c l IH]; intros [|d t]; simpl; intro H;
    try discriminate; try (injection H as <-; reflexivity).
  destruct (N.eqb_spec c d); [subst; f_equal; now apply IH | discriminate].
Qed.

Lemma strip_prefix_app_notin l s x r :
  ~ In x l -> strip_prefix l (s ++ x :: r) = option_map (fun s' => s' ++ x :: r) (strip_prefix l s).
Proof.
  revert s; induction l as [|c l IH]; intros [|d s] Hx; simpl; try reflexivity.
  - destruct (N.eqb_spec c x); [exfalso; apply Hx; now left | reflexivity].
  - destruct (N.eqb c d); [apply IH; intro; apply Hx; now right | reflexivity].
Qed.

Lemma run_app_stop cls s x r : cls x = false -> run cls (s ++ x :: r) = run cls s.
Proof. intros Hx; induction s as [|c s IH]; simpl; [now rewrite Hx | now rewrite IH]. Qed.

Lemma run_all cls s t : forallb cls s = true -> run cls (s ++ t) = List.length s + run cls t.
Proof.
  induction s as [|c s IH]; simpl; [reflexivity|].
  intros H; apply andb_prop in H as [H1 H2]; rewrite H1, IH; auto.
Qed.

Lemma run_le cls t : run cls t <= List.length t.
Proof. induction t as [|c t IH]; simpl; [lia | destruct (cls c); simpl; lia]. Qed.

Lemma run_skipn cls t j : j <= run cls t -> run cls (skipn j t) = run cls t - j.
Proof.
  revert t; induction j as [|j IH]; intros t H; simpl; [lia|].
  destruct t as [|c t]; simpl in *; [lia|].
  destruct (cls c); simpl in *; [apply IH; lia | lia].
Qed.

Lemma skipn_below_run cls t j :
  j < run cls t -> exists c t', skipn j t = c :: t' /\ cls c = true.
Proof.
  revert t; induction j as [|j IH]; intros [|c t] H; simpl in *; try lia.
  - destruct (cls c) eqn:E; [now exists c, t | lia].
  - destruct (cls c); [apply IH; lia | lia].
Qed.

Lemma existsb_ext_in {A} (f g : A -> bool) l :
  (forall x, In x l -> f x = g x) -> existsb f l = existsb g l.
Proof.
  induction l as [|x l IH]; simpl; intros H; [reflexivity|].
  rewrite H by now left. f_equal. apply IH. intros; apply H; now right.
Qed.

Lemma occurs_cons c P s : ~ In c P -> P <> [] -> occurs P (c :: s) -> occurs P s.
Proof.
  intros Hc HP [[|d x] [y Hs]].
  - destruct P as [|p P]; [congruence|]. injection Hs as -> _. exfalso; apply Hc; now left.
  - injection Hs as _ ->. now exists x, y.
Qed.

Lemma occurs_length P s : occurs P s -> List.length P <= List.length s.
Proof. intros [x [y ->]]. rewrite !length_app. lia. Qed.

Lemma occurs_sub a P b s : occurs (a ++ P ++ b) s -> occurs P s.
Proof. intros [x [y ->]]. exists (x ++ a), (b ++ y). now rewrite <- !app_assoc. Qed.

Lemma occurs_in c P s : occurs P s -> In c P -> In c s.
Proof. intros [x [y ->]] H. apply in_or_app; right; apply in_or_app; now left. Qed.

Lemma occurs_app_sep c P A B : ~ In c P -> occurs P (A ++ c :: B) -> occurs P A \/ occurs P B.
Proof.
  intros Hc. induction A as [|a A IH]; intros Hs.
  - destruct P as [|p P]; [right; now exists [], B|].
    right. apply occurs_cons in Hs; [exact Hs | exact Hc | discriminate].
  - destruct Hs as [[|d x] [y Hs]].
    + simpl in Hs. change (a :: A ++ c :: B) with ((a :: A) ++ c :: B) in Hs.
      destruct (app_eq_app _ _ _ _ Hs) as [l [[H1 H2] | [H1 H2]]].
      * left. exists [], l. exact H1.
      * destruct l as [|e l].
        -- left. exists [], []. rewrite app_nil_r in H1. now rewrite H1, app_nil_r.
        -- injection H2 as -> _. exfalso. apply Hc. rewrite H1. apply in_or_app; right; now left.
    + injection Hs as -> Hs.
      destruct IH as [[x' [y' H]] | H]; [now exists x, y | | now right].
      left. exists (d :: x'), y'. now rewrite H.
Qed.

Lemma in_last_of_suffix (c : N) A1 A2 X : A1 ++ A2 = X ++ [c] -> A2 <> [] -> In c A2.
Proof.
  intros H Hne. destruct (exists_last Hne) as [A2' [d ->]].
  rewrite app_assoc in H. apply app_inj_tail in H as [_ ->].
  apply in_or_app; right; now left.
Qed.

Lemma firstn_app_le {A} n (l1 l2 : list A) : n <= List.length l1 -> firstn n (l1 ++ l2) = firstn n l1.
Proof. intros H. rewrite firstn_app. replace (n - List.length l1) with 0 by lia. apply app_nil_r. Qed.

Lemma skipn_app_le {A} n (l1 l2 : list A) : n <= List.length l1 -> skipn n (l1 ++ l2) = skipn n l1 ++ l2.
Proof. intros H. rewrite skipn_app. replace (n - List.length l1) with 0 by lia. reflexivity. Qed.

(** ** The repetitions *)

Section RepeatFacts.
Context {R : Type}.

Lemma plus_try_none n t (k : ustr -> option R) :
  (forall j, 1 <= j <= n -> k (skipn j t) = None) -> plus_try n t k = None.
Proof.
  induction n as [|n IH]; intros H; cbn [plus_try]; [reflexivity|].
  rewrite H by lia. apply IH. intros j Hj; apply H; lia.
Qed.

Lemma plus_try_top n t (k : ustr -> option R) :
  (forall j, 1 <= j < n -> k (skipn j t) = None) ->
  plus_try n t k = match n with 0 => None | S _ => k (skipn n t) end.
Proof.
  destruct n as [|n]; intros H; cbn [plus_try]; [reflexivity|].
  destruct (k (skipn (S n) t)); [reflexivity|].
  apply plus_try_none. intros j Hj; apply H; lia.
Qed.

Lemma plus_try_const n t (k : ustr -> option R) (f : nat -> bool) (v : R) :
  (forall j, 1 <= j <= n -> k (skipn j t) = if f j then Some v else None) ->
  plus_try n t k = if existsb f (seq 1 n) then Some v else None.
Proof.
  induction n as [|n IH]; intros H; cbn [plus_try]; [reflexivity|].
  rewrite seq_S, existsb_app. cbn [existsb]. replace (1 + n) with (S n) by lia.
  rewrite H by lia.
  destruct (f (S n)).
  - now rewrite orb_true_r.
  - rewrite ?orb_false_r. apply IH. intros j Hj; apply H; lia.
Qed.

End RepeatFacts.

(** ** The scan *)

Lemma segs_nil r k :
  segs r k [] = match match_at r [] with Some (_, cs) => [Mt [] cs] | None => [] end.
Proof. reflexivity. Qed.

Lemma segs_cons0 r c t :
  segs r 0 (c :: t) =
  match match_at r (c :: t) with
  | Some (e, cs) =>
      match List.length (c :: t) - List.length e with
      | 0 => Mt [] cs :: Chr c :: segs r 0 t
      | S k => Mt (firstn (S k) (c :: t)) cs :: segs r k t
      end
  | None => Chr c :: segs r 0 t
  end.
Proof. reflexivity. Qed.

Lemma segs_skip r t k : segs r k t = segs r 0 (skipn k t).
Proof.
  revert k; induction t as [|c t IH]; intros [|k]; try reflexivity.
  simpl skipn. rewrite <- IH. reflexivity.
Qed.

Lemma segs_match r t x e cs :
  match_at r t = Some (e, cs) -> t = x ++ e -> x <> [] -> segs r 0 t = Mt x cs :: segs r 0 e.
Proof.
  intros H -> Hx. destruct x as [|c x]; [congruence|].
  simpl app. rewrite segs_cons0. rewrite <- app_comm_cons in H. rewrite H.
  replace (List.length (c :: x ++ e) - List.length e) with (S (List.length x))
    by (cbn [List.length]; rewrite length_app; lia).
  rewrite segs_skip, skipn_app, Nat.sub_diag, skipn_all. simpl.
  rewrite firstn_app_le by (simpl; lia). rewrite firstn_all. reflexivity.
Qed.

Lemma segs_nomatch r A t :
  (forall A1 A2, A = A1 ++ A2 -> A2 <> [] -> match_at r (A2 ++ t) = None) ->
  segs r 0 (A ++ t) = map Chr A ++ segs r 0 t.
Proof.
  induction A as [|c A IH]; intros H; [reflexivity|].
  simpl app. rewrite segs_cons0.
  rewrite (app_comm_cons A t c), (H [] (c :: A)) by (reflexivity || discriminate).
  simpl. f_equal. apply IH. intros A1 A2 -> HA2. apply (H (c :: A1) A2); [reflexivity | exact HA2].
Qed.

Section Newline.
Variable r : regex.
Hypothesis Hloc : forall s rest,
  match_at r (s ++ nl :: rest) = option_map (fun p => (fst p ++ nl :: rest, snd p)) (match_at r s).
Hypothesis Hlen : forall s e cs, match_at r s = Some (e, cs) -> List.length e <= List.length s.
Hypothesis Hnil : match_at r [] = None.

Lemma segs_app_nl_k s : forall k rest, k <= List.length s ->
  segs r k (s ++ nl :: rest) = segs r k s ++ segs r 0 (nl :: rest).
Proof.
  induction s as [|c s IH]; intros k rest Hk.
  - simpl in Hk. replace k with 0 by lia. rewrite (segs_nil r 0), Hnil. reflexivity.
  - destruct k as [|k].
    + change ((c :: s) ++ nl :: rest) with (c :: (s ++ nl :: rest)).
      rewrite (segs_cons0 r c (s ++ nl :: rest)), (segs_cons0 r c s).
      assert (HL : match_at r (c :: s ++ nl :: rest) =
                   option_map (fun p => (fst p ++ nl :: rest, snd p)) (match_at r (c :: s)))
        by exact (Hloc (c :: s) rest).
      rewrite HL.
      destruct (match_at r (c :: s)) as [[e cs]|] eqn:E; cbn [option_map fst snd].
      * pose proof (Hlen _ _ _ E) as Hl. cbn [List.length] in Hl.
        replace (List.length (c :: s ++ nl :: rest) - List.length (e ++ nl :: rest))
          with (List.length (c :: s) - List.length e)
          by (cbn [List.length]; rewrite !length_app; cbn [List.length]; lia).
        destruct (List.length (c :: s) - List.length e) as [|k] eqn:Ek; cbn [app].
        -- f_equal. f_equal. apply IH. lia.
        -- f_equal.
           ++ f_equal. change (c :: s ++ nl :: rest) with ((c :: s) ++ nl :: rest).
              apply firstn_app_le. cbn [List.length] in *; lia.
           ++ apply IH. cbn [List.length] in *; lia.
      * cbn [app]. f_equal. apply IH. lia.
    + change (segs r (S k) ((c :: s) ++ nl :: rest)) with (segs r k (s ++ nl :: rest)).
      change (segs r (S k) (c :: s)) with (segs r k s).
      apply IH. simpl in Hk; lia.
Qed.

Lemma segs_app_nl s rest : segs r 0 (s ++ nl :: rest) = segs r 0 s ++ segs r 0 (nl :: rest).
Proof. apply segs_app_nl_k. lia. Qed.

End Newline.

(** ** The two regular expressions of [extractFileUrls] in closed form *)


Lemma lit_close_head t : t <> [] -> not_ws (hd 0%N t) = true -> strip_prefix lit_close t = None.
Proof.
  destruct t as [|c t]; intros H1 H2; [congruence|]. simpl in H2.
  unfold lit_close; cbn [strip_prefix].
  destruct (N.eqb_spec 32 c); [subst; discriminate | reflexivity].
Qed.

Lemma match_comment t :
  match_at commentRegex t =
  match strip_prefix lit_open t with
  | None => None
  | Some t1 =>
      match strip_prefix lit_https t1 with
      | None => None
      | Some u0 =>
          match run not_ws u0 with
          | 0 => None
          | S _ =>
              match strip_prefix lit_close (skipn (run not_ws u0) u0) with
              | Some e => Some (e, [(1, lit_https ++ firstn (run not_ws u0) u0)])
              | None => None
              end
          end
      end
  end.
Proof.
  unfold match_at, commentRegex. cbn [m].
  destruct (strip_prefix lit_open t) as [t1|]; [|reflexivity].
  destruct (strip_prefix lit_https t1) as [u0|] eqn:E; [|reflexivity].
  apply strip_prefix_some in E. subst t1.
  rewrite plus_try_top.
  - destruct (run not_ws u0) as [|n] eqn:En; [reflexivity|].
    destruct (strip_prefix lit_close (skipn (S n) u0)); [|reflexivity].
    do 4 f_equal. pose proof (run_le not_ws u0) as Hle.
    rewrite length_app, length_skipn.
    replace (List.length lit_https + List.length u0 - (List.length u0 - S n))
      with (List.length lit_https + S n) by lia.
    rewrite firstn_app, firstn_all2 by lia.
    replace (List.length lit_https + S n - List.length lit_https) with (S n) by lia. reflexivity.
  - intros j Hj. destruct (skipn_below_run not_ws u0 j) as [c [t' [Hs Hc]]]; [lia|].
    rewrite Hs, lit_close_head by (simpl; congruence || exact Hc). reflexivity.
Qed.


Lemma forallb_segment : forallb not_ws_paren lit_segment = true.
Proof. reflexivity. Qed.

Lemma forallb_https : forallb not_ws_paren lit_https = true.
Proof. reflexivity. Qed.

Lemma match_url t :
  match_at fileUrlRegex t =
  match strip_prefix lit_https t with
  | None => None
  | Some u0 =>
      if existsb (seg_at u0) (seq 1 (run not_ws_paren u0))
      then Some (skipn (run not_ws_paren u0) u0, []) else None
  end.
Proof.
  unfold match_at, fileUrlRegex. cbn [m].
  destruct (strip_prefix lit_https t) as [u0|]; [|reflexivity].
  apply plus_try_const. intros j Hj. unfold seg_at.
  destruct (strip_prefix lit_segment (skipn j u0)) as [w|] eqn:E; [|reflexivity].
  apply strip_prefix_some in E.
  assert (Hw : run not_ws_paren w = run not_ws_paren u0 - j - List.length lit_segment).
  { pose proof (run_skipn not_ws_paren u0 j ltac:(lia)) as H1.
    rewrite E, run_all in H1 by exact forallb_segment. lia. }
  destruct (run not_ws_paren w) as [|k] eqn:Ek; [reflexivity|]. cbn [plus_try negb Nat.eqb].
  f_equal. f_equal.
  assert (Hsk : skipn (List.length lit_segment) (skipn j u0) = w)
    by (rewrite E, skipn_app, Nat.sub_diag, skipn_all; reflexivity).
  rewrite <- Hsk, !skipn_skipn. f_equal. lia.
Qed.

Lemma match_comment_nl s rest :
  match_at commentRegex (s ++ nl :: rest) =
  option_map (fun p => (fst p ++ nl :: rest, snd p)) (match_at commentRegex s).
Proof.
  rewrite !match_comment.
  rewrite strip_prefix_app_notin by notin.
  destruct (strip_prefix lit_open s) as [t1|]; [|reflexivity]. cbn [option_map].
  rewrite strip_prefix_app_notin by notin.
  destruct (strip_prefix lit_https t1) as [u0|]; [|reflexivity]. cbn [option_map].
  rewrite run_app_stop by reflexivity.
  destruct (run not_ws u0) as [|n] eqn:En; [reflexivity|].
  pose proof (run_le not_ws u0) as Hle.
  rewrite skipn_app_le, strip_prefix_app_notin by (lia || notin).
  destruct (strip_prefix lit_close (skipn (S n) u0)); [|reflexivity]. cbn [option_map fst snd].
  rewrite firstn_app_le by lia. reflexivity.
Qed.

Lemma match_url_nl s rest :
  match_at fileUrlRegex (s ++ nl :: rest) =
  option_map (fun p => (fst p ++ nl :: rest, snd p)) (match_at fileUrlRegex s).
Proof.
  rewrite !match_url.
  rewrite strip_prefix_app_notin by notin.
  destruct (strip_prefix lit_https s) as [u0|]; [|reflexivity]. cbn [option_map].
  rewrite run_app_stop by reflexivity.
  pose proof (run_le not_ws_paren u0) as Hle.
  rewrite (existsb_ext_in (seg_at (u0 ++ nl :: rest)) (seg_at u0)).
  - destruct (existsb (seg_at u0) _); [|reflexivity]. cbn [option_map fst snd].
    rewrite skipn_app_le by lia. reflexivity.
  - intros j Hj. apply in_seq in Hj. unfold seg_at.
    rewrite skipn_app_le, strip_prefix_app_notin by (lia || notin).
    destruct (strip_prefix lit_segment (skipn j u0)) as [w|]; [|reflexivity]. cbn [option_map].
    rewrite run_app_stop by reflexivity. reflexivity.
Qed.

Lemma match_comment_len s e cs :
  match_at commentRegex s = Some (e, cs) -> List.length e <= List.length s.
Proof.
  rewrite match_comment.
  destruct (strip_prefix lit_open s) as [t1|] eqn:E1; [|discriminate].
  destruct (strip_prefix lit_https t1) as [u0|] eqn:E2; [|discriminate].
  destruct (run not_ws u0); [discriminate|].
  destruct (strip_prefix lit_close _) as [e'|] eqn:E3; [|discriminate].
  intros H; injection H as <- _.
  apply strip_prefix_some in E1, E2, E3. subst.
  apply (f_equal (@List.length N)) in E3.
  rewrite !length_app, length_skipn in *. lia.
Qed.

Lemma match_url_len s e cs :
  match_at fileUrlRegex s = Some (e, cs) -> List.length e <= List.length s.
Proof.
  rewrite match_url.
  destruct (strip_prefix lit_https s) as [u0|] eqn:E1; [|discriminate].
  destruct (existsb _ _); [|discriminate].
  intros H; injection H as <- _. apply strip_prefix_some in E1. subst.
  rewrite length_app, length_skipn. lia.
Qed.

Lemma match_comment_nil : match_at commentRegex [] = None.
Proof. reflexivity. Qed.

Lemma match_url_nil : match_at fileUrlRegex [] = None.
Proof. reflexivity. Qed.

Lemma segs_comment_app_nl s rest :
  segs commentRegex 0 (s ++ nl :: rest) = segs commentRegex 0 s ++ segs commentRegex 0 (nl :: rest).
Proof. apply segs_app_nl; [exact match_comment_nl | exact match_comment_len | exact match_comment_nil]. Qed.

Lemma segs_url_app_nl s rest :
  segs fileUrlRegex 0 (s ++ nl :: rest) = segs fileUrlRegex 0 s ++ segs fileUrlRegex 0 (nl :: rest).
Proof. apply segs_app_nl; [exact match_url_nl | exact match_url_len | exact match_url_nil]. Qed.

Lemma segs_comment_nl rest : segs commentRegex 0 (nl :: rest) = Chr nl :: segs commentRegex 0 rest.
Proof. rewrite segs_cons0, match_comment. reflexivity. Qed.

Lemma segs_url_nl rest : segs fileUrlRegex 0 (nl :: rest) = Chr nl :: segs fileUrlRegex 0 rest.
Proof. rewrite segs_cons0, match_url. reflexivity. Qed.

(** ** The Set-based deduplication *)

Lemma fold_set_add_nodup l acc : NoDup (acc ++ l) -> fold_left set_add l acc = acc ++ l.
Proof.
  revert acc; induction l as [|x l IH]; intros acc H; simpl; [now rewrite app_nil_r|].
  unfold set_add at 2.
  destruct (existsb (ustr_eqb x) acc) eqn:E.
  - apply existsb_eqb_in in E. exfalso.
    apply NoDup_remove_2 in H. apply H. apply in_or_app; now left.
  - rewrite IH; [now rewrite <- app_assoc | now rewrite <- app_assoc].
Qed.

Lemma fold_set_add_NoDup l acc : NoDup acc -> NoDup (fold_left set_add l acc).
Proof.
  revert acc; induction l as [|x l IH]; intros acc H; simpl; [exact H|].
  apply IH. unfold set_add. destruct (existsb (ustr_eqb x) acc) eqn:E; [exact H|].
  apply (Permutation_NoDup (Permutation_cons_append acc x)). constructor; [|exact H].
  intros Hx. apply existsb_eqb_in in Hx. congruence.
Qed.

Lemma dedup_NoDup l : NoDup (dedup l).
Proof. apply fold_set_add_NoDup. constructor. Qed.

Lemma dedup_idem l : dedup (dedup l) = dedup l.
Proof. unfold dedup at 1. apply fold_set_add_nodup. apply dedup_NoDup. Qed.

Lemma dedup_app_dedup a b : dedup (dedup a ++ b) = dedup (a ++ b).
Proof.
  unfold dedup. rewrite !fold_left_app. f_equal.
  apply fold_set_add_nodup. apply fold_set_add_NoDup. constructor.
Qed.

(** ** Links written by the save paths *)


Lemma starts_with_app p y : starts_with (p ++ y) p = true.
Proof. induction p as [|c p IH]; simpl; [now destruct y | now rewrite N.eqb_refl]. Qed.

Lemma includes_unfold s p :
  includes s p = starts_with s p || match s with [] => false | _ :: s' => includes s' p end.
Proof. now destruct s. Qed.

Lemma includes_occurs s p : occurs p s -> includes s p = true.
Proof.
  intros [x [y ->]]. induction x as [|c x IH].
  - rewrite app_nil_l, includes_unfold, starts_with_app. reflexivity.
  - cbn [app]. rewrite includes_unfold. cbv iota beta. rewrite IH. apply orb_true_r.
Qed.

Lemma file_link_eq f : file_link f = (33%N :: 91%N :: name f ++ [93; 40]%N) ++ url f ++ [41%N].
Proof. unfold file_link. rewrite <- app_comm_cons, <- app_comm_cons, <- app_assoc. reflexivity. Qed.

Lemma file_link_eq' f : file_link f = 33%N :: 91%N :: name f ++ 93%N :: 40%N :: url f ++ [41%N].
Proof. reflexivity. Qed.

Lemma wf_url_chars v : wf_url v -> forallb not_ws_paren v = true.
Proof.
  intros (a & b & -> & _ & _ & H). rewrite forallb_app in H. apply andb_prop in H as [Ha Hb].
  rewrite !forallb_app, forallb_https, forallb_segment, Ha, Hb. reflexivity.
Qed.

Lemma url_match_stop v t0 :
  wf_url v -> run not_ws_paren t0 = 0 -> match_at fileUrlRegex (v ++ t0) = Some (t0, []).
Proof.
  intros Hv Ht0. pose proof (wf_url_chars v Hv) as Hc.
  destruct Hv as (a & b & -> & Ha & Hb & Hab).
  rewrite forallb_app in Hab. apply andb_prop in Hab as [Ha' Hb'].
  rewrite match_url, <- !app_assoc, strip_prefix_app.
  assert (Hrun : run not_ws_paren (a ++ lit_segment ++ b ++ t0)
                 = List.length a + (List.length lit_segment + List.length b)).
  { rewrite run_all, run_all, run_all by first [assumption | apply forallb_segment].
    rewrite Ht0. lia. }
  rewrite Hrun.
  replace (existsb (seg_at (a ++ lit_segment ++ b ++ t0))
             (seq 1 (List.length a + (List.length lit_segment + List.length b)))) with true.
  - rewrite app_assoc, app_assoc, skipn_app, skipn_all2 by (rewrite !length_app; lia).
    rewrite !length_app. replace (_ - _) with 0 by lia. reflexivity.
  - symmetry. apply existsb_exists. exists (List.length a). split.
    + apply in_seq. destruct a; [congruence | simpl; lia].
    + unfold seg_at. rewrite skipn_app, Nat.sub_diag, skipn_all. cbn [skipn app].
      rewrite strip_prefix_app.
      rewrite run_all by assumption. destruct b; [congruence | simpl; reflexivity].
Qed.

Lemma url_match_link v r : wf_url v -> match_at fileUrlRegex (v ++ 41%N :: r) = Some (41%N :: r, []).
Proof. intros Hv. apply url_match_stop; [exact Hv | reflexivity]. Qed.

Lemma no_https_region n t :
  includes n lit_https = false ->
  forall A1 A2, 33%N :: 91%N :: n ++ [93; 40]%N = A1 ++ A2 -> A2 <> [] ->
  match_at fileUrlRegex (A2 ++ t) = None.
Proof.
  intros Hn A1 A2 HA HA2. rewrite match_url.
  destruct (strip_prefix lit_https (A2 ++ t)) as [z|] eqn:E; [exfalso | reflexivity].
  apply strip_prefix_some in E.
  destruct (app_eq_app _ _ _ _ E) as [l [[H1 H2] | [H1 H2]]].
  - assert (Hocc : occurs lit_https (33%N :: 91%N :: n ++ [93; 40]%N))
      by (exists A1, l; now rewrite HA, H1).
    apply occurs_cons in Hocc; [| notin | discriminate].
    apply occurs_cons in Hocc; [| notin | discriminate].
    apply (occurs_app_sep 93%N) in Hocc; [| notin].
    destruct Hocc as [Hocc | Hocc].
    + apply includes_occurs in Hocc. congruence.
    + apply occurs_length in Hocc. simpl in Hocc. lia.
  - assert (In 40%N A2).
    { apply (in_last_of_suffix _ A1 A2 (33%N :: 91%N :: n ++ [93%N])); [|exact HA2].
      rewrite <- HA. simpl. now rewrite <- app_assoc. }
    assert (In 40%N lit_https) by (rewrite H1; apply in_or_app; now left).
    revert H0. notin.
Qed.

Lemma no_sentinel_link f : wf_file f -> ~ occurs (32%N :: lit_https) (file_link f).
Proof.
  intros [Hv Hn] Hocc. rewrite file_link_eq' in Hocc.
  apply occurs_cons in Hocc; [| notin | discriminate].
  apply occurs_cons in Hocc; [| notin | discriminate].
  apply (occurs_app_sep 93%N) in Hocc; [| notin].
  destruct Hocc as [Hocc | Hocc].
  - apply (occurs_sub [32%N] lit_https []) in Hocc.
    apply includes_occurs in Hocc. congruence.
  - apply occurs_cons in Hocc; [| notin | discriminate].
    apply (occurs_app_sep 41%N) in Hocc; [| notin].
    destruct Hocc as [Hocc | Hocc].
    + apply (occurs_in 32%N) in Hocc; [| now left].
      pose proof (wf_url_chars _ Hv) as Hc. rewrite forallb_forall in Hc.
      specialize (Hc _ Hocc). discriminate.
    + apply occurs_length in Hocc. simpl in Hocc. lia.
Qed.

Lemma comment_region f : wf_file f ->
  forall A1 A2, file_link f = A1 ++ A2 -> A2 <> [] -> match_at commentRegex (A2 ++ []) = None.
Proof.
  intros Hf A1 A2 HA HA2. rewrite app_nil_r, match_comment.
  destruct (strip_prefix lit_open A2) as [l|] eqn:E1; [|reflexivity].
  destruct (strip_prefix lit_https l) as [l0|] eqn:E2; [|reflexivity].
  exfalso. apply strip_prefix_some in E1, E2. subst.
  apply (no_sentinel_link f Hf). exists (A1 ++ u "<!-- attachment:"), l0.
  rewrite HA. assert (Hop : lit_open = u "<!-- attachment:" ++ [32%N]) by reflexivity.
  rewrite Hop, <- !app_assoc. reflexivity.
Qed.

Lemma matches_url_app_nl s t :
  matches fileUrlRegex (s ++ nl :: t) = matches fileUrlRegex s ++ matches fileUrlRegex t.
Proof. unfold matches. rewrite segs_url_app_nl, segs_url_nl, flat_map_app. reflexivity. Qed.

Lemma group1s_comment_app_nl s t :
  group1s commentRegex (s ++ nl :: t) = group1s commentRegex s ++ group1s commentRegex t.
Proof. unfold group1s. rewrite segs_comment_app_nl, segs_comment_nl, flat_map_app. reflexivity. Qed.

Lemma matches_url_nl t : matches fileUrlRegex (nl :: t) = matches fileUrlRegex t.
Proof. unfold matches. rewrite segs_url_nl. reflexivity. Qed.

Lemma group1s_comment_nl t : group1s commentRegex (nl :: t) = group1s commentRegex t.
Proof. unfold group1s. rewrite segs_comment_nl. reflexivity. Qed.

Lemma matches_map_Chr A :
  flat_map (fun it => match it with Mt s _ => [s] | Chr _ => [] end) (map Chr A) = [].
Proof. induction A; simpl; auto. Qed.

Lemma group1s_map_Chr A :
  flat_map (fun it => match it with
                      | Mt _ cs => match find (fun p => Nat.eqb (fst p) 1) cs with
                                   | Some (_, s) => [s]
                                   | None => [] end
                      | Chr _ => [] end) (map Chr A) = [].
Proof. induction A; simpl; auto. Qed.

Lemma md_link f : wf_file f -> matches fileUrlRegex (file_link f) = [url f].
Proof.
  intros Hf. pose proof Hf as [Hv Hn]. unfold matches. rewrite file_link_eq.
  rewrite (segs_nomatch _ _ _ (no_https_region _ _ Hn)).
  rewrite (segs_match _ _ (url f) [41%N] [] (url_match_link _ [] Hv)); [| reflexivity |].
  - rewrite flat_map_app, matches_map_Chr. reflexivity.
  - destruct Hv as (a & b & -> & _). destruct lit_https eqn:E; discriminate.
Qed.

Lemma cm_link f : wf_file f -> group1s commentRegex (file_link f) = [].
Proof.
  intros Hf. unfold group1s. rewrite <- (app_nil_r (file_link f)).
  rewrite (segs_nomatch _ _ _ (comment_region f Hf)), segs_nil, match_comment_nil, app_nil_r.
  apply group1s_map_Chr.
Qed.

Lemma links_cons2 f g R :
  join [nl] (map file_link (f :: g :: R)) = file_link f ++ nl :: join [nl] (map file_link (g :: R)).
Proof. reflexivity. Qed.

Lemma md_links R : Forall wf_file R -> matches fileUrlRegex (join [nl] (map file_link R)) = map url R.
Proof.
  induction R as [|f R IH]; intros HR; [reflexivity|].
  inversion HR as [|? ? Hf HR']; subst. destruct R as [|g R].
  - apply md_link, Hf.
  - rewrite links_cons2, matches_url_app_nl, md_link, IH by assumption. reflexivity.
Qed.

Lemma cm_links R : Forall wf_file R -> group1s commentRegex (join [nl] (map file_link R)) = [].
Proof.
  induction R as [|f R IH]; intros HR; [reflexivity|].
  inversion HR as [|? ? Hf HR']; subst. destruct R as [|g R].
  - apply cm_link, Hf.
  - rewrite links_cons2, group1s_comment_app_nl, cm_link, IH by assumption. reflexivity.
Qed.

(** The round trip of the save encoding through the extractor. *)
Lemma extract_content_with_files c R :
  Forall wf_file R ->
  extractFileUrls (content_with_files c R) = dedup (extractFileUrls c ++ map url R).
Proof.
  intros HR. destruct R as [|f R'].
  - simpl. rewrite app_nil_r. unfold extractFileUrls. now rewrite dedup_idem.
  - cbn [content_with_files]. set (L := join [nl] (map file_link (f :: R'))).
    assert (HcL : comment_urls L = []) by apply (cm_links _ HR).
    assert (HmL : markdown_urls L = map url (f :: R')) by apply (md_links _ HR).
    destruct c as [|x c].
    + unfold extractFileUrls at 1. rewrite HcL, HmL. reflexivity.
    + unfold extractFileUrls, comment_urls, markdown_urls.
      change ((x :: c) ++ [nl; nl] ++ L) with ((x :: c) ++ nl :: (nl :: L)).
      rewrite group1s_comment_app_nl, matches_url_app_nl, group1s_comment_nl, matches_url_nl.
      fold (comment_urls L) (markdown_urls L). rewrite HcL, HmL, app_nil_r.
      rewrite dedup_app_dedup, <- app_assoc. reflexivity.
Qed.

Lemma fold_handleFileUploaded R st :
  fold_left handleFileUploaded R st =
  mkEdit (isEditing st) (editName st) (editContent st) (attachedFiles st ++ R).
Proof.
  revert st; induction R as [|f R IH]; intros st; simpl.
  - rewrite app_nil_r. now destruct st.
  - rewrite IH. simpl. now rewrite <- app_assoc.
Qed.

Lemma edit_round_eq n c R : trim n <> [] -> edit_round n c R = content_with_files c R.
Proof.
  intros Hn. unfold edit_round. rewrite fold_handleFileUploaded. unfold handleSave. simpl.
  destruct (trim n); [congruence | reflexivity].
Qed.

Lemma wf_U1 : wf_url U1.
Proof.
  exists (u "proj.supabase.co/storage/v1/object/public"), (u "uid/1f.png").
  split; [reflexivity |]. split; [discriminate |]. split; [discriminate | reflexivity].
Qed.

Lemma wf_U2 : wf_url U2.
Proof.
  exists (u "proj.supabase.co/storage/v1/object/public"), (u "uid/2e.pdf").
  split; [reflexivity |]. split; [discriminate |]. split; [discriminate | reflexivity].
Qed.

Lemma wf_file_a v : wf_url v -> wf_file (file_a v).
Proof. split; [assumption | reflexivity]. Qed.

Lemma wf_file_b v : wf_url v -> wf_file (file_b v).
Proof. split; [assumption | reflexivity]. Qed.

(** ** Reaching a position of the global scan *)

Lemma firstn_run cls s : forallb cls (firstn (run cls s) s) = true.
Proof.
  induction s as [|c s IH]; simpl; [reflexivity|].
  destruct (cls c) eqn:E; simpl; [rewrite E; exact IH | reflexivity].
Qed.

(** If no match attempted inside [a] reaches past its end, the scan of
    [a ++ t] passes through the start of [t]. *)
Lemma segs_reach r t : forall n a, List.length a <= n ->
  (forall A1 A2, a = A1 ++ A2 -> A2 <> [] -> forall e cs,
     match_at r (A2 ++ t) = Some (e, cs) -> List.length t <= List.length e) ->
  exists items, segs r 0 (a ++ t) = items ++ segs r 0 t.
Proof.
  induction n as [|n IH]; intros a Ha H.
  - destruct a; [exists []; reflexivity | simpl in Ha; lia].
  - destruct a as [|c a']; [exists []; reflexivity|].
    assert (H' : forall A1 A2, a' = A1 ++ A2 -> A2 <> [] -> forall e cs,
               match_at r (A2 ++ t) = Some (e, cs) -> List.length t <= List.length e)
      by (intros A1 A2 -> HA2; apply (H (c :: A1) A2); [reflexivity | exact HA2]).
    simpl in Ha. cbn [app]. rewrite segs_cons0.
    destruct (match_at r (c :: a' ++ t)) as [[e cs]|] eqn:E.
    + pose proof (H [] (c :: a') eq_refl ltac:(discriminate) e cs E) as Hle.
      destruct (List.length (c :: a' ++ t) - List.length e) as [|k] eqn:Ek.
      * destruct (IH a' ltac:(lia) H') as [items Hi].
        exists (Mt [] cs :: Chr c :: items). rewrite Hi. reflexivity.
      * assert (Hk : k <= List.length a')
          by (cbn [List.length] in Ek; rewrite length_app in Ek; lia).
        rewrite segs_skip, skipn_app. replace (k - List.length a') with 0 by lia.
        cbn [skipn].
        assert (H'' : forall A1 A2, skipn k a' = A1 ++ A2 -> A2 <> [] -> forall e cs,
                   match_at r (A2 ++ t) = Some (e, cs) -> List.length t <= List.length e).
        { intros A1 A2 HA HA2. apply (H (c :: firstn k a' ++ A1) A2); [| exact HA2].
          cbn [app]. f_equal. rewrite <- app_assoc, <- HA. symmetry. apply firstn_skipn. }
        destruct (IH (skipn k a') ltac:(rewrite length_skipn; lia) H'') as [items Hi].
        exists (Mt (firstn (S k) (c :: a' ++ t)) cs :: items). rewrite Hi. reflexivity.
    + destruct (IH a' ltac:(lia) H') as [items Hi].
      exists (Chr c :: items). rewrite Hi. reflexivity.
Qed.

Lemma fold_set_add_In x l acc : In x (fold_left set_add l acc) <-> In x acc \/ In x l.
Proof.
  revert acc; induction l as [|y l IH]; intros acc; simpl; [tauto|].
  rewrite IH. unfold set_add. destruct (existsb (ustr_eqb y) acc) eqn:E.
  - apply existsb_eqb_in in E. split; [tauto|]. intros [H|[<-|H]]; auto.
  - rewrite in_app_iff. simpl. tauto.
Qed.

Lemma dedup_In x l : In x (dedup l) <-> In x l.
Proof. unfold dedup. rewrite fold_set_add_In. simpl. tauto. Qed.

Lemma extract_In x c :
  In x (extractFileUrls c) <-> In x (comment_urls c) \/ In x (markdown_urls c).
Proof. unfold extractFileUrls. rewrite dedup_In, in_app_iff. reflexivity. Qed.

(** A match started before a delimiter (whitespace or [)]) ends before it. *)
Lemma url_no_overlap a' d T : not_ws_paren d = false ->
  forall A1 A2, a' ++ [d] = A1 ++ A2 -> A2 <> [] -> forall e cs,
  match_at fileUrlRegex (A2 ++ T) = Some (e, cs) -> List.length T <= List.length e.
Proof.
  intros Hd A1 A2 HA HA2 e cs H. rewrite match_url in H.
  destruct (strip_prefix lit_https (A2 ++ T)) as [u0|] eqn:E1; [|discriminate].
  destruct (existsb _ _); [|discriminate]. injection H as <- _.
  apply strip_prefix_some in E1.
  destruct (exists_last HA2) as [A2' [y HA2']]. subst A2.
  rewrite app_assoc in HA. apply app_inj_tail in HA as [_ <-].
  rewrite <- app_assoc in E1. cbn [app] in E1.
  destruct (app_eq_app _ _ _ _ E1) as [l [[H1 H2] | [H1 H2]]].
  - subst u0. rewrite length_skipn, run_app_stop by exact Hd.
    pose proof (run_le not_ws_paren l). rewrite length_app. cbn [List.length]. lia.
  - destruct l as [|z l].
    + cbn [app] in H2. subst u0. cbn [run]. rewrite Hd. cbn [skipn List.length]. lia.
    + injection H2 as <- _. exfalso.
      pose proof forallb_https as Hh. rewrite forallb_forall in Hh.
      assert (Hin : In d lit_https) by (rewrite H1; apply in_or_app; right; now left).
      specialize (Hh d Hin). congruence.
Qed.

(** A non-whitespace run followed by [ -->] cannot start a sentinel. *)
Lemma run_close_not_open Rs e' T0 :
  forallb not_ws Rs = true -> lit_open ++ T0 <> Rs ++ lit_close ++ e'.
Proof.
  intros HR H. destruct Rs as [|r0 Rs']; [discriminate H|].
  change (lit_open ++ T0) with ([60; 33; 45; 45] ++ 32 :: (u "attachment: " ++ T0))%N in H.
  destruct (app_eq_app _ _ _ _ (eq_sym H)) as [l [[H1 H2] | [H1 H2]]].
  - destruct l as [|y l].
    + discriminate H2.
    + injection H2 as Hy _. subst y.
      assert (Hin : In 32%N (r0 :: Rs')) by (rewrite H1; apply in_or_app; right; now left).
      rewrite forallb_forall in HR. specialize (HR _ Hin). discriminate.
  - destruct l as [|y l].
    + discriminate H2.
    + injection H2 as <- _. injection H1 as _ H1.
      assert (Hin : In 32%N [33; 45; 45]%N) by (rewrite H1; apply in_or_app; right; now left).
      revert Hin. notin.
Qed.

(** A sentinel match started before a sentinel cannot reach into it. *)
Lemma comment_no_overlap A2 T0 : A2 <> [] -> forall e cs,
  match_at commentRegex (A2 ++ lit_open ++ T0) = Some (e, cs) ->
  List.length (lit_open ++ T0) <= List.length e.
Proof.
  intros HA2 e cs H. rewrite match_comment in H.
  destruct (strip_prefix lit_open _) as [t1|] eqn:E1; [|discriminate].
  destruct (strip_prefix lit_https t1) as [u0|] eqn:E2; [|discriminate].
  destruct (run not_ws u0) as [|n] eqn:En; [discriminate|].
  destruct (strip_prefix lit_close _) as [e'|] eqn:E3; [|discriminate].
  injection H as <- _. apply strip_prefix_some in E1, E2, E3.
  assert (HR : forallb not_ws (firstn (S n) u0) = true) by (rewrite <- En; apply firstn_run).
  assert (Hu0 : u0 = firstn (S n) u0 ++ lit_close ++ e')
    by (rewrite <- E3; symmetry; apply firstn_skipn).
  set (R := firstn (S n) u0) in *. clearbody R.
  assert (Heq : A2 ++ lit_open ++ T0 = (lit_open ++ lit_https) ++ R ++ lit_close ++ e')
    by (rewrite E1, E2, Hu0, app_assoc; reflexivity).
  clear E1 E2 E3 Hu0 En.
  destruct (app_eq_app _ _ _ _ Heq) as [l [[H1 H2] | [H1 H2]]].
  - destruct (app_eq_app _ _ _ _ H2) as [l' [[H3 H4] | [H3 H4]]].
    + subst R. rewrite forallb_app in HR. apply andb_prop in HR as [_ HR].
      exfalso. apply (run_close_not_open l' e' T0 HR). now rewrite H4.
    + destruct (app_eq_app _ _ _ _ H4) as [m [[H5 H6] | [H5 H6]]].
      * destruct m as [|y m].
        -- rewrite H6. simpl. lia.
        -- exfalso. assert (y = 60%N) by (cbn [app] in H6; injection H6 as <- _; reflexivity).
           subst y. assert (Hin : In 60%N lit_close)
             by (rewrite H5; apply in_or_app; right; now left).
           revert Hin. notin.
      * rewrite H6, !length_app. lia.
  - destruct l as [|y l].
    + exfalso. rewrite app_nil_l in H2. apply (run_close_not_open R e' T0 HR). exact H2.
    + exfalso. destruct A2 as [|a0 A2']; [congruence|].
      assert (y = 60%N) by (change (lit_open ++ T0) with (60%N :: (tl lit_open ++ T0)) in H2;
                            injection H2 as <- _; reflexivity).
      subst y. change (lit_open ++ lit_https) with (60%N :: tl (lit_open ++ lit_https)) in H1.
      injection H1 as _ H1.
      assert (Hin : In 60%N (A2' ++ 60%N :: l)) by (apply in_or_app; right; now left).
      rewrite <- H1 in Hin. revert Hin. notin.
Qed.

Lemma match_sentinel w b : w <> [] -> forallb not_ws w = true ->
  match_at commentRegex (sentinel (lit_https ++ w) ++ b) = Some (b, [(1, lit_https ++ w)]).
Proof.
  intros Hw Hc. unfold sentinel. rewrite match_comment, <- !app_assoc, !strip_prefix_app.
  rewrite run_all by exact Hc.
  replace (run not_ws (lit_close ++ b)) with 0 by reflexivity. rewrite Nat.add_0_r.
  rewrite skipn_app, Nat.sub_diag, skipn_all, firstn_app, Nat.sub_diag, firstn_all.
  cbn [app skipn firstn]. rewrite strip_prefix_app, app_nil_r.
  destruct w as [|c w']; [congruence | reflexivity].
Qed.


Lemma ustr_eqb_sym a b : ustr_eqb a b = ustr_eqb b a.
Proof.
  destruct (ustr_eqb a b) eqn:E1, (ustr_eqb b a) eqn:E2; try reflexivity.
  - apply ustr_eqb_spec in E1. subst. rewrite <- E2. symmetry. now apply ustr_eqb_spec.
  - apply ustr_eqb_spec in E2. subst. rewrite <- E1. now apply ustr_eqb_spec.
Qed.

Lemma filter_filter_and {A} (f g : A -> bool) l :
  filter f (filter g l) = filter (fun x => g x && f x) l.
Proof.
  induction l as [|x l IH]; simpl; [reflexivity|].
  destruct (g x); simpl; [destruct (f x); simpl; now rewrite IH | exact IH].
Qed.

Lemma fold_set_add_acc l : forall acc,
  fold_left set_add l acc =
  acc ++ filter (fun y => negb (existsb (ustr_eqb y) acc)) (fold_left set_add l []).
Proof.
  induction l as [|x l IH]; intros acc; cbn [fold_left]; [now rewrite app_nil_r|].
  rewrite (IH (set_add acc x)), (IH (set_add [] x)). change (set_add [] x) with [x].
  rewrite filter_app, filter_filter_and. cbn [filter]. unfold set_add.
  destruct (existsb (ustr_eqb x) acc) eqn:E; cbn [negb app].
  - f_equal. apply filter_ext. intros y.
    destruct (existsb (ustr_eqb y) acc) eqn:Ey; cbn [negb]; [now rewrite andb_false_r|].
    cbn [existsb]. rewrite orb_false_r, andb_true_r.
    destruct (ustr_eqb y x) eqn:Exy; [|reflexivity].
    apply ustr_eqb_spec in Exy. subst. congruence.
  - rewrite <- app_assoc. f_equal. cbn [app]. f_equal. apply filter_ext. intros y.
    rewrite existsb_app. cbn [existsb]. rewrite orb_false_r.
    destruct (existsb (ustr_eqb y) acc), (ustr_eqb y x); reflexivity.
Qed.

(** Deduplication keeps the first copy and drops the later ones. *)
Lemma dedup_cons x l : dedup (x :: l) = x :: filter (fun y => negb (ustr_eqb y x)) (dedup l).
Proof.
  unfold dedup at 1. simpl. rewrite fold_set_add_acc. simpl.
  f_equal. apply filter_ext. intros y. now rewrite orb_false_r.
Qed.

Lemma NoDup_count_occ_1 (l : list ustr) x :
  NoDup l -> In x l -> count_occ (list_eq_dec N.eq_dec) l x = 1.
Proof.
  intros Hn Hx. rewrite (NoDup_count_occ (list_eq_dec N.eq_dec)) in Hn.
  specialize (Hn x). apply (count_occ_In (list_eq_dec N.eq_dec)) in Hx. lia.
Qed.

Lemma in_flat_map_items_md x items rest :
  In x (flat_map (fun it => match it with Mt s _ => [s] | Chr _ => [] end)
          (items ++ Mt x [] :: rest)).
Proof. rewrite flat_map_app. apply in_or_app. right. simpl. now left. Qed.

Lemma in_flat_map_items_cm x s items rest :
  In x (flat_map (fun it => match it with
                      | Mt _ cs => match find (fun p => Nat.eqb (fst p) 1) cs with
                                   | Some (_, s) => [s]
                                   | None => [] end
                      | Chr _ => [] end)
          (items ++ Mt s [(1, x)] :: rest)).
Proof. rewrite flat_map_app. apply in_or_app. right. simpl. now left. Qed.

(** ** The cleaning regexes on well-formed descriptions *)

Lemma occurs_skipn P b j : occurs P (skipn j b) -> occurs P b.
Proof.
  intros [x [y Hs]]. exists (firstn j b ++ x), y.
  rewrite <- app_assoc, <- Hs. symmetry. apply firstn_skipn.
Qed.

Lemma not_occurs_includes s p : includes s p = false -> ~ occurs p s.
Proof. intros H Ho. apply includes_occurs in Ho. congruence. Qed.

(** A pattern whose last unit does not occur before it cannot straddle the
    end of a text that does not contain it. *)
Lemma occurs_extend_last P' z b :
  ~ In z P' -> ~ occurs (P' ++ [z]) b -> ~ occurs (P' ++ [z]) (b ++ P').
Proof.
  intros Hz Hb [x [y H]]. rewrite <- app_assoc in H. cbn [app] in H.
  rewrite app_assoc in H.
  destruct (app_eq_app _ _ _ _ H) as [l [[H1 H2] | [H1 H2]]].
  - destruct l as [|l0 l'].
    + apply Hz. rewrite app_nil_l in H2. rewrite <- H2. now left.
    + injection H2 as <- H2. apply Hb. exists x, l'.
      rewrite H1, <- !app_assoc. reflexivity.
  - apply Hz. rewrite H2. apply in_or_app. right. now left.
Qed.

Lemma strip_early_none P S R :
  S <> [] -> ~ occurs P (S ++ removelast P) -> strip_prefix P (S ++ P ++ R) = None.
Proof.
  intros HS Hocc. destruct (strip_prefix P (S ++ P ++ R)) as [z|] eqn:E; [exfalso|reflexivity].
  apply strip_prefix_some in E.
  destruct (app_eq_app _ _ _ _ E) as [l [[H1 H2] | [H1 H2]]].
  - apply Hocc. exists [], (l ++ removelast P). now rewrite H1, <- app_assoc.
  - assert (Hl : List.length l < List.length P).
    { rewrite H1, length_app. destruct S; [congruence | simpl; lia]. }
    assert (Hpre : firstn (List.length l) P = l).
    { apply (f_equal (firstn (List.length l))) in H2.
      rewrite !firstn_app, Nat.sub_diag, firstn_all in H2.
      replace (List.length l - List.length P) with 0 in H2 by lia.
      cbn [firstn] in H2. rewrite !app_nil_r in H2. exact H2. }
    assert (Hrl : removelast P = l ++ skipn (List.length l) (removelast P)).
    { rewrite <- (firstn_skipn (List.length l) (removelast P)) at 1. f_equal.
      rewrite removelast_firstn_len, firstn_firstn.
      replace (Init.Nat.min (List.length l) (Init.Nat.pred (List.length P))) with (List.length l)
        by lia.
      exact Hpre. }
    apply Hocc. exists [], (skipn (List.length l) (removelast P)). cbn [app].
    rewrite Hrl at 1. rewrite app_assoc, <- H1. reflexivity.
Qed.

Lemma lazy_try_first {R} (k : ustr -> option R) x : forall J n t,
  (forall j, j < J -> k (skipn j t) = None) -> J <= n -> J <= List.length t ->
  k (skipn J t) = Some x -> lazy_try n t k = Some x.
Proof.
  induction J as [|J IH]; intros n t Hlt Hn Ht Hk.
  - destruct n, t; simpl in *; rewrite Hk; reflexivity.
  - destruct n as [|n]; [lia|]. destruct t as [|c t]; [simpl in Ht; lia|].
    cbn [lazy_try]. rewrite (Hlt 0 ltac:(lia) : k (c :: t) = None).
    apply IH; [intros j Hj; apply (Hlt (S j)); lia | lia | simpl in Ht; lia | exact Hk].
Qed.

Lemma run_ge cls s t : forallb cls s = true -> List.length s <= run cls (s ++ t).
Proof. intros H. rewrite run_all by exact H. lia. Qed.

Lemma skipn_app_lt {A} (s t : list A) j : j < List.length s -> skipn j (s ++ t) = skipn j s ++ t.
Proof. intros H. rewrite skipn_app. replace (j - List.length s) with 0 by lia. reflexivity. Qed.

Lemma skipn_nonempty {A} (s : list A) j : j < List.length s -> skipn j s <> [].
Proof. intros H E. apply (f_equal (@List.length A)) in E. rewrite length_skipn in E. simpl in E. lia. Qed.

(** An image link matches exactly. *)
Lemma match_image a v X :
  piece_ok (Img a v) -> match_at imageRegex (render_piece (Img a v) ++ X) = Some (X, []).
Proof.
  intros (Ha & Hma & Hv & Hpv). unfold match_at, imageRegex. cbn [m render_piece].
  rewrite <- !app_assoc, strip_prefix_app.
  apply (lazy_try_first _ _ (List.length a)).
  - intros j Hj. rewrite skipn_app_lt by exact Hj.
    rewrite strip_early_none; [reflexivity | now apply skipn_nonempty |].
    change (removelast lit_img_mid) with [93%N].
    change lit_img_mid with ([93%N] ++ [40%N]).
    apply occurs_extend_last; [notin |].
    intros Ho. apply occurs_skipn in Ho. apply (not_occurs_includes _ _ Hma), Ho.
  - apply run_ge, Ha.
  - rewrite length_app. lia.
  - rewrite skipn_app, Nat.sub_diag, skipn_all. cbn [app skipn]. rewrite strip_prefix_app.
    apply (lazy_try_first _ _ (List.length v)).
    + intros j Hj. rewrite skipn_app_lt by exact Hj.
      rewrite strip_early_none; [reflexivity | now apply skipn_nonempty |].
      change (removelast lit_rparen) with (@nil N). rewrite app_nil_r.
      intros Ho. apply occurs_skipn in Ho. apply (not_occurs_includes _ _ Hpv), Ho.
    + apply run_ge, Hv.
    + rewrite length_app. lia.
    + rewrite skipn_app, Nat.sub_diag, skipn_all. cbn [app skipn]. rewrite strip_prefix_app.
      reflexivity.
Qed.

(** An HTML comment matches exactly. *)
Lemma match_html_comment b X :
  includes b lit_cm_close = false ->
  match_at htmlCommentRegex (render_piece (Cmt b) ++ X) = Some (X, []).
Proof.
  intros Hb. unfold match_at, htmlCommentRegex. cbn [m render_piece].
  rewrite <- !app_assoc, strip_prefix_app.
  apply (lazy_try_first _ _ (List.length b)).
  - intros j Hj. rewrite skipn_app_lt by exact Hj.
    rewrite strip_early_none; [reflexivity | now apply skipn_nonempty |].
    change (removelast lit_cm_close) with [45; 45]%N.
    change lit_cm_close with ([45; 45]%N ++ [62%N]).
    apply occurs_extend_last; [notin |].
    intros Ho. apply occurs_skipn in Ho. apply (not_occurs_includes _ _ Hb), Ho.
  - rewrite run_all by (clear; induction b as [|c b IH]; [reflexivity | exact IH]). lia.
  - rewrite length_app. lia.
  - rewrite skipn_app, Nat.sub_diag, skipn_all. cbn [app skipn]. rewrite strip_prefix_app.
    reflexivity.
Qed.

Lemma image_needs_open t : strip_prefix lit_img_open t = None -> match_at imageRegex t = None.
Proof. intros H. unfold match_at, imageRegex. cbn [m]. now rewrite H. Qed.

Lemma comment_needs_open t : strip_prefix lit_cm_open t = None -> match_at htmlCommentRegex t = None.
Proof. intros H. unfold match_at, htmlCommentRegex. cbn [m]. now rewrite H. Qed.

(** No match starts inside a text [R] without the opening literal [P] of
    the regex, when the following text does not continue a proper prefix of
    [P]. *)
Lemma lit_region r P R X :
  (forall t, strip_prefix P t = None -> match_at r t = None) ->
  ~ occurs P R ->
  (forall c X', X = c :: X' -> ~ In c (tl P)) ->
  forall A1 A2, R = A1 ++ A2 -> A2 <> [] -> match_at r (A2 ++ X) = None.
Proof.
  intros Hr Hocc HX A1 A2 HR HA2. apply Hr.
  destruct (strip_prefix P (A2 ++ X)) as [z|] eqn:E; [exfalso | reflexivity].
  apply strip_prefix_some in E.
  destruct (app_eq_app _ _ _ _ E) as [l [[H1 H2] | [H1 H2]]].
  - apply Hocc. exists A1, l. now rewrite HR, H1.
  - destruct l as [|l0 l'].
    + rewrite app_nil_r in H1. apply Hocc. exists A1, []. now rewrite HR, H1, app_nil_r.
    + apply (HX l0 (l' ++ z)); [now rewrite H2 |].
      destruct A2 as [|a0 A2']; [congruence |]. rewrite H1. simpl.
      apply in_or_app. right. now left.
Qed.

Lemma replace_map_Chr repl A :
  flat_map (fun it => match it with Mt _ _ => repl | Chr c => [c] end) (map Chr A) = A.
Proof. induction A as [|c A IH]; simpl; [reflexivity | now rewrite IH]. Qed.

Lemma replace_nomatch r repl A t :
  (forall A1 A2, A = A1 ++ A2 -> A2 <> [] -> match_at r (A2 ++ t) = None) ->
  replace_all r repl (A ++ t) = A ++ replace_all r repl t.
Proof.
  intros H. unfold replace_all. rewrite (segs_nomatch _ _ _ H), flat_map_app, replace_map_Chr.
  reflexivity.
Qed.

Lemma replace_match r repl x t :
  match_at r (x ++ t) = Some (t, []) -> x <> [] ->
  replace_all r repl (x ++ t) = repl ++ replace_all r repl t.
Proof. intros H Hx. unfold replace_all. now rewrite (segs_match r (x ++ t) x t [] H eq_refl Hx). Qed.

Lemma render_rest_head ps c X' : render_rest ps = c :: X' -> c = 33%N \/ c = 60%N.
Proof.
  destruct ps as [|[[a v|b] t] ps]; unfold render_rest; simpl; intros H;
    [discriminate | injection H as <- _; now left | injection H as <- _; now right].
Qed.

Lemma pass1_rest_head ps c X' : pass1_rest ps = c :: X' -> c = 91%N \/ c = 60%N.
Proof.
  destruct ps as [|[[a v|b] t] ps]; unfold pass1_rest; simpl; intros H;
    [discriminate | injection H as <- _; now left | injection H as <- _; now right].
Qed.

Lemma cmt_no_img b t :
  includes b lit_img_open = false -> includes t lit_img_open = false ->
  ~ occurs lit_img_open (render_piece (Cmt b) ++ t).
Proof.
  intros Hb Ht Ho. unfold render_piece in Ho. rewrite <- !app_assoc in Ho.
  change (lit_cm_open ++ b ++ lit_cm_close ++ t)
    with ([60; 33]%N ++ 45%N :: (45%N :: b ++ 45%N :: 45%N :: 62%N :: t)) in Ho.
  apply (occurs_app_sep 45%N) in Ho; [| notin]. destruct Ho as [Ho | Ho].
  - apply (occurs_in 91%N) in Ho; [revert Ho; notin | now right; left].
  - apply occurs_cons in Ho; [| notin | discriminate].
    apply (occurs_app_sep 45%N) in Ho; [| notin]. destruct Ho as [Ho | Ho].
    + exact (not_occurs_includes _ _ Hb Ho).
    + apply occurs_cons in Ho; [| notin | discriminate].
      apply occurs_cons in Ho; [| notin | discriminate].
      exact (not_occurs_includes _ _ Ht Ho).
Qed.

Lemma img_no_cm t : includes t lit_cm_open = false -> ~ occurs lit_cm_open (lit_image ++ t).
Proof.
  intros Ht Ho. change (lit_image ++ t) with ([91; 105; 109; 97; 103; 101]%N ++ 93%N :: t) in Ho.
  apply (occurs_app_sep 93%N) in Ho; [| notin]. destruct Ho as [Ho | Ho].
  - apply (occurs_in 60%N) in Ho; [revert Ho; notin | now left].
  - exact (not_occurs_includes _ _ Ht Ho).
Qed.

Lemma render_piece_nonempty p : render_piece p <> [].
Proof. destruct p; discriminate. Qed.

Lemma pass1_ok ps :
  Forall (fun pt => piece_ok (fst pt) /\ text_ok (snd pt)) ps ->
  replace_all imageRegex lit_image (render_rest ps) = pass1_rest ps.
Proof.
  induction ps as [|[p t] ps IH]; intros H; [reflexivity |].
  inversion H as [|? ? [Hp [Ht1 Ht2]] H']; subst. cbn [fst snd] in Hp.
  change (render_rest ((p, t) :: ps)) with ((render_piece p ++ t) ++ render_rest ps).
  change (pass1_rest ((p, t) :: ps)) with ((pass1_piece p ++ t) ++ pass1_rest ps).
  assert (HX : forall c X', render_rest ps = c :: X' -> ~ In c (tl lit_img_open)).
  { intros c X' E. destruct (render_rest_head _ _ _ E) as [-> | ->]; notin. }
  destruct p as [a v | b].
  - rewrite <- app_assoc, replace_match;
      [| apply match_image, Hp | apply render_piece_nonempty].
    rewrite replace_nomatch
      by exact (lit_region _ _ _ _ image_needs_open (not_occurs_includes _ _ Ht1) HX).
    rewrite IH by exact H'. now rewrite app_assoc.
  - rewrite replace_nomatch
      by exact (lit_region _ _ _ _ image_needs_open (cmt_no_img b t (proj2 Hp) Ht1) HX).
    rewrite IH by exact H'. reflexivity.
Qed.

Lemma pass2_ok ps :
  Forall (fun pt => piece_ok (fst pt) /\ text_ok (snd pt)) ps ->
  replace_all htmlCommentRegex [] (pass1_rest ps) = display_rest ps.
Proof.
  induction ps as [|[p t] ps IH]; intros H; [reflexivity |].
  inversion H as [|? ? [Hp [Ht1 Ht2]] H']; subst. cbn [fst snd] in Hp.
  change (pass1_rest ((p, t) :: ps)) with ((pass1_piece p ++ t) ++ pass1_rest ps).
  change (display_rest ((p, t) :: ps)) with ((display_piece p ++ t) ++ display_rest ps).
  assert (HX : forall c X', pass1_rest ps = c :: X' -> ~ In c (tl lit_cm_open)).
  { intros c X' E. destruct (pass1_rest_head _ _ _ E) as [-> | ->]; notin. }
  destruct p as [a v | b].
  - rewrite replace_nomatch
      by exact (lit_region _ _ _ _ comment_needs_open (img_no_cm t Ht2) HX).
    rewrite IH by exact H'. reflexivity.
  - cbn [pass1_piece display_piece]. rewrite <- app_assoc, replace_match;
      [| apply match_html_comment, (proj1 Hp) | apply render_piece_nonempty].
    rewrite replace_nomatch
      by exact (lit_region _ _ _ _ comment_needs_open (not_occurs_includes _ _ Ht2) HX).
    rewrite IH by exact H'. reflexivity.
Qed.

(** ** Session checks *)

Lemma validate_cases decode tok now resp st :
  validateSession decode tok now resp st = (false, st) \/
  validateSession decode tok now resp st = (false, mkSS (retryCount st) (effects st ++ [GetUser])) \/
  validateSession decode tok now resp st = (true, mkSS 0 (effects st ++ [GetUser])).
Proof.
  unfold validateSession. destruct tok as [[|c t]|]; auto.
  destruct (decode _); auto. destruct (_ && _); auto. destruct resp; auto.
Qed.

Lemma validate_outcome_eq decode tok now resp st :
  fst (validateSession decode tok now resp st) = validation_outcome decode tok now resp.
Proof.
  unfold validation_outcome, validateSession. destruct tok as [[|c t]|]; auto.
  destruct (decode _); auto. destruct (_ && _); auto. destruct resp; auto.
Qed.

Lemma signouts_app st r l :
  signouts (mkSS r (effects st ++ l)) = signouts st + signouts (mkSS 0 l).
Proof. unfold signouts. cbn [effects]. now rewrite filter_app, length_app. Qed.

Lemma check_step decode s now resp st :
  let st' := performSessionCheck decode (Some s) now resp st in
  if validation_outcome decode (access_token s) now resp
  then retryCount st' = 0 /\ signouts st' = signouts st
  else if Nat.leb maxRetries (S (retryCount st))
       then retryCount st' = 0 /\ signouts st' = S (signouts st)
       else retryCount st' = S (retryCount st) /\ signouts st' = signouts st.
Proof.
  rewrite <- (validate_outcome_eq decode _ _ _ st). unfold performSessionCheck.
  destruct (validate_cases decode (access_token s) now resp st) as [E | [E | E]]; rewrite E;
    cbn [fst snd retryCount effects].
  - destruct (Nat.leb maxRetries (S (retryCount st))); cbn [retryCount effects signOut cleanup_effect].
    + split; [reflexivity |]. rewrite <- app_assoc, signouts_app. unfold signouts; cbn [effects filter app List.length]; lia.
    + split; reflexivity.
  - destruct (Nat.leb maxRetries (S (retryCount st))); cbn [retryCount effects signOut cleanup_effect].
    + split; [reflexivity |]. rewrite <- !app_assoc, signouts_app. unfold signouts; cbn [effects filter app List.length]; lia.
    + split; [reflexivity |]. rewrite signouts_app. unfold signouts; cbn [effects filter app List.length]; lia.
  - split; [reflexivity |]. rewrite signouts_app. unfold signouts; cbn [effects filter app List.length]; lia.
Qed.

Lemma check_bound decode sess now resp st :
  retryCount st < maxRetries ->
  retryCount (performSessionCheck decode sess now resp st) < maxRetries.
Proof.
  intros H. destruct sess as [s|]; [| exact H].
  pose proof (check_step decode s now resp st) as Hs. cbv zeta in Hs.
  destruct (validation_outcome _ _ _ _); [lia |].
  destruct (Nat.leb maxRetries (S (retryCount st))) eqn:L; [lia |].
  apply Nat.leb_gt in L. lia.
Qed.

Lemma check_step_ok decode s now resp st :
  validation_outcome decode (access_token s) now resp = true ->
  retryCount (performSessionCheck decode (Some s) now resp st) = 0 /\
  signouts (performSessionCheck decode (Some s) now resp st) = signouts st.
Proof. intros H. pose proof (check_step decode s now resp st) as Hs. cbv zeta in Hs. now rewrite H in Hs. Qed.

Lemma check_step_fail decode s now resp st :
  validation_outcome decode (access_token s) now resp = false ->
  S (retryCount st) < maxRetries ->
  retryCount (performSessionCheck decode (Some s) now resp st) = S (retryCount st) /\
  signouts (performSessionCheck decode (Some s) now resp st) = signouts st.
Proof.
  intros H L. pose proof (check_step decode s now resp st) as Hs. cbv zeta in Hs. rewrite H in Hs.
  apply Nat.leb_gt in L. now rewrite L in Hs.
Qed.

Lemma check_step_signout decode s now resp st :
  validation_outcome decode (access_token s) now resp = false ->
  S (retryCount st) = maxRetries ->
  retryCount (performSessionCheck decode (Some s) now resp st) = 0 /\
  signouts (performSessionCheck decode (Some s) now resp st) = S (signouts st).
Proof.
  intros H L. pose proof (check_step decode s now resp st) as Hs. cbv zeta in Hs. rewrite H in Hs.
  rewrite L, Nat.leb_refl in Hs. exact Hs.
Qed.

Lemma run_checks_bound decode sess ticks st :
  retryCount st < maxRetries -> retryCount (run_checks decode sess ticks st) < maxRetries.
Proof.
  unfold run_checks. revert st. induction ticks as [|i ticks IH]; intros st H; [exact H |].
  cbn [fold_left]. apply IH, check_bound, H.
Qed.

Lemma check_signout_effects decode s now resp st :
  validation_outcome decode (access_token s) now resp = false ->
  Nat.leb maxRetries (S (retryCount st)) = true ->
  exists pre, (pre = [] \/ pre = [GetUser]) /\
    effects (performSessionCheck decode (Some s) now resp st) = effects st ++ pre ++ [Cleanup; SignOut].
Proof.
  intros V L. rewrite <- (validate_outcome_eq decode _ _ _ st) in V. unfold performSessionCheck.
  destruct (validate_cases decode (access_token s) now resp st) as [E | [E | E]]; rewrite E in *;
    cbn [fst snd retryCount effects] in *; try discriminate; rewrite L; cbn [effects signOut cleanup_effect].
  - exists []. split; [now left | now rewrite <- app_assoc].
  - exists [GetUser]. split; [now right | now rewrite <- !app_assoc].
Qed.

(** ** Upload names and keys *)

Lemma split_on_notin sep a : ~ In sep a -> split_on sep a = [a].
Proof.
  induction a as [|c a IH]; intros H; [reflexivity |]. cbn [split_on].
  destruct (N.eqb c sep) eqn:E; [apply N.eqb_eq in E; subst; exfalso; apply H; now left |].
  rewrite IH by (intros Hi; apply H; now right). reflexivity.
Qed.

Lemma split_on_app_sep sep a b : ~ In sep a -> split_on sep (a ++ sep :: b) = a :: split_on sep b.
Proof.
  induction a as [|c a IH]; intros H; cbn [app split_on]; [now rewrite N.eqb_refl |].
  destruct (N.eqb c sep) eqn:E; [apply N.eqb_eq in E; subst; exfalso; apply H; now left |].
  rewrite IH by (intros Hi; apply H; now right). reflexivity.
Qed.

Lemma split_on_nonempty sep s : split_on sep s <> [].
Proof. destruct s as [|c s]; cbn [split_on]; [discriminate |]. destruct (N.eqb c sep); [discriminate |]. destruct (split_on sep s); discriminate. Qed.

Lemma split_on_pieces sep s w : In w (split_on sep s) -> ~ In sep w.
Proof.
  revert w. induction s as [|c s IH]; intros w Hw; cbn [split_on] in Hw.
  - destruct Hw as [<- | []]. intros [].
  - destruct (N.eqb c sep) eqn:E.
    + destruct Hw as [<- | Hw]; [intros [] | exact (IH _ Hw)].
    + destruct (split_on sep s) as [|w0 ws] eqn:Es; [exfalso; exact (split_on_nonempty sep s Es) |].
      destruct Hw as [<- | Hw].
      * intros [Hc | Hc]; [subst; now rewrite N.eqb_refl in E | apply (IH w0); [now left | exact Hc]].
      * apply IH. now right.
Qed.

Lemma last_In_split sep s : In (last (split_on sep s) []) (split_on sep s).
Proof.
  pose proof (split_on_nonempty sep s) as H. destruct (split_on sep s) as [|w ws] using rev_ind;
    [congruence |]. rewrite last_last. apply in_or_app. right. now left.
Qed.

Lemma app_sep_inj (c : N) a b x y : ~ In c a -> ~ In c b -> a ++ c :: x = b ++ c :: y -> a = b /\ x = y.
Proof.
  revert b. induction a as [|a0 a IH]; intros [|b0 b] Ha Hb H; cbn [app] in H.
  - injection H as H. split; [reflexivity | exact H].
  - injection H as -> _. exfalso. apply Hb. now left.
  - injection H as -> _. exfalso. apply Ha. now left.
  - injection H as -> H. destruct (IH b) as [-> ->];
      [intros Hi; apply Ha; now right | intros Hi; apply Hb; now right | exact H |].
    split; reflexivity.
Qed.

Lemma replace_colon_dot_app a b : replace_colon_dot (a ++ b) = replace_colon_dot a ++ replace_colon_dot b.
Proof. apply map_app. Qed.

Lemma replace_colon_dot_digits l : forallb is_digit l = true -> replace_colon_dot l = l.
Proof.
  induction l as [|c l IH]; intros H; [reflexivity |]. cbn [forallb] in H.
  apply andb_prop in H as [Hc Hl]. unfold replace_colon_dot in *. cbn [map]. rewrite IH by exact Hl.
  unfold is_digit in Hc. apply andb_prop in Hc as [H1 H2]. apply N.leb_le in H1, H2.
  destruct (N.eqb c 58) eqn:E1; [apply N.eqb_eq in E1; lia |].
  destruct (N.eqb c 46) eqn:E2; [apply N.eqb_eq in E2; lia |]. reflexivity.
Qed.

Lemma generic_names n :
  n = u "image.png" \/ n = u "blob" \/ n = [] \/ starts_with n (u "image") = true ->
  is_generic_name n = true.
Proof.
  unfold is_generic_name. intros [-> | [-> | [-> | H]]]; try reflexivity.
  rewrite H. now rewrite !orb_true_r.
Qed.

(** ** The cleanup pass *)

Lemma getItem_In k s v : getItem k s = Some v -> In (k, v) s.
Proof.
  induction s as [|[k' v'] s IH]; cbn [getItem]; [discriminate |].
  destruct (ustr_eqb k' k) eqn:E; intros H.
  - injection H as <-. apply ustr_eqb_spec in E. subst. now left.
  - right. apply IH, H.
Qed.

Lemma getItem_None k s v : getItem k s = None -> ~ In (k, v) s.
Proof.
  induction s as [|[k' v'] s IH]; cbn [getItem]; [intros _ [] |].
  destruct (ustr_eqb k' k) eqn:E; [discriminate |]. intros H [Hh | Hi].
  - injection Hh as -> ->. rewrite (proj2 (ustr_eqb_spec k k) eq_refl) in E. discriminate.
  - exact (IH H Hi).
Qed.

Lemma store_unique (s : store) k v v' : NoDup (map fst s) -> In (k, v) s -> In (k, v') s -> v = v'.
Proof.
  induction s as [|[k0 v0] s IH]; intros Hd H1 H2; [destruct H1 |].
  inversion Hd as [| ? ? Hn Hd']; subst. destruct H1 as [E1 | H1], H2 as [E2 | H2].
  - injection E1 as -> ->. injection E2 as E2. now subst.
  - injection E1 as -> ->. exfalso. apply Hn. apply (in_map fst _ _ H2).
  - injection E2 as -> ->. exfalso. apply Hn. apply (in_map fst _ _ H1).
  - exact (IH Hd' H1 H2).
Qed.

Lemma filter_all_true {A} (f : A -> bool) l : (forall x, In x l -> f x = true) -> filter f l = l.
Proof.
  induction l as [|x l IH]; intros H; [reflexivity |]. cbn [filter].
  rewrite (H x (or_introl eq_refl)), IH; [reflexivity |]. intros y Hy. apply H. now right.
Qed.

Lemma NoDup_map_filter {A B} (g : A -> B) (f : A -> bool) l :
  NoDup (map g l) -> NoDup (map g (filter f l)).
Proof.
  induction l as [|x l IH]; intros Hd; [constructor |]. cbn [filter map] in *.
  inversion Hd as [| ? ? Hn Hd']; subst. destruct (f x); [| exact (IH Hd')].
  constructor; [| exact (IH Hd')]. intros Hi. apply Hn.
  apply in_map_iff in Hi as [y [Hy Hi]]. apply filter_In in Hi as [Hi _].
  rewrite <- Hy. now apply in_map.
Qed.

Section CleanupFacts.
Variable parse : ustr -> option json.
Variable on_corrupt : ustr -> bool.
Variable now_ms : Z.

Lemma clean_key_filter s k :
  NoDup (map fst s) ->
  clean_key parse on_corrupt now_ms s k = filter (fun kv => negb (ustr_eqb (fst kv) k && drop_entry parse on_corrupt now_ms (fst kv) (snd kv))) s.
Proof.
  intros Hd. unfold clean_key. destruct (getItem k s) as [v|] eqn:G.
  - pose proof (getItem_In _ _ _ G) as Hin.
    destruct (drop_entry parse on_corrupt now_ms k v) eqn:D.
    + unfold removeItem. apply filter_ext_in. intros [k' v'] Hi. cbn [fst].
      destruct (ustr_eqb k' k) eqn:E; [| reflexivity]. apply ustr_eqb_spec in E. subst k'.
      rewrite (store_unique s k v' v Hd Hi Hin). cbn [fst snd]. now rewrite D.
    + symmetry. apply filter_all_true. intros [k' v'] Hi. cbn [fst].
      destruct (ustr_eqb k' k) eqn:E; [| reflexivity]. apply ustr_eqb_spec in E. subst k'.
      rewrite (store_unique s k v' v Hd Hi Hin). cbn [fst snd]. now rewrite D.
  - symmetry. apply filter_all_true. intros [k' v'] Hi. cbn [fst].
    destruct (ustr_eqb k' k) eqn:E; [| reflexivity]. apply ustr_eqb_spec in E. subst k'.
    exfalso. exact (getItem_None _ _ v' G Hi).
Qed.

Lemma clean_keys_filter ks s :
  NoDup (map fst s) ->
  fold_left (clean_key parse on_corrupt now_ms) ks s
    = filter (fun kv => negb (existsb (ustr_eqb (fst kv)) ks && drop_entry parse on_corrupt now_ms (fst kv) (snd kv))) s.
Proof.
  revert s. induction ks as [|k ks IH]; intros s Hd; cbn [fold_left].
  - symmetry. apply filter_all_true. reflexivity.
  - rewrite clean_key_filter by exact Hd.
    rewrite IH by (apply NoDup_map_filter, Hd).
    rewrite filter_filter_and. apply filter_ext. intros kv. cbn [existsb].
    destruct (ustr_eqb (fst kv) k), (existsb (ustr_eqb (fst kv)) ks), (drop_entry parse on_corrupt now_ms (fst kv) (snd kv)); reflexivity.
Qed.

Lemma clean_store_filter is_auth s :
  NoDup (map fst s) ->
  clean_store parse is_auth on_corrupt now_ms s = filter (fun kv => negb (is_auth (fst kv) && drop_entry parse on_corrupt now_ms (fst kv) (snd kv))) s.
Proof.
  intros Hd. unfold clean_store. rewrite clean_keys_filter by exact Hd.
  apply filter_ext_in. intros kv Hi.
  destruct (is_auth (fst kv)) eqn:A.
  - replace (existsb (ustr_eqb (fst kv)) (filter is_auth (map fst s))) with true; [reflexivity |].
    symmetry. apply existsb_eqb_in. apply filter_In. split; [now apply in_map | exact A].
  - destruct (existsb (ustr_eqb (fst kv)) (filter is_auth (map fst s))) eqn:E; [| reflexivity].
    apply existsb_eqb_in, filter_In in E as [_ E]. congruence.
Qed.

End CleanupFacts.

(** ** Where the matches of a scan come from *)

Lemma segs_Mt_origin r t : forall k x cs,
  In (Mt x cs) (segs r k t) ->
  exists p s e, t = p ++ s /\ match_at r s = Some (e, cs) /\
                x = firstn (List.length s - List.length e) s.
Proof.
  induction t as [|c t IH]; intros k x cs H; cbn [segs] in H.
  - destruct (match_at r []) as [[e cs0]|] eqn:E; [| destruct H].
    destruct H as [H | []]. injection H as <- <-. exists [], [], e. auto.
  - destruct k as [|k].
    + destruct (match_at r (c :: t)) as [[e cs0]|] eqn:E.
      * destruct (List.length (c :: t) - List.length e) as [|n] eqn:En.
        -- destruct H as [H | [H | H]]; [| discriminate |].
           ++ injection H as <- <-. exists [], (c :: t), e. rewrite En. auto.
           ++ apply IH in H as (p & s & e' & -> & H1 & H2). exists (c :: p), s, e'. auto.
        -- destruct H as [H | H].
           ++ injection H as <- <-. exists [], (c :: t), e. rewrite En. auto.
           ++ apply IH in H as (p & s & e' & -> & H1 & H2). exists (c :: p), s, e'. auto.
      * destruct H as [H | H]; [discriminate |].
        apply IH in H as (p & s & e' & -> & H1 & H2). exists (c :: p), s, e'. auto.
    + apply IH in H as (p & s & e' & -> & H1 & H2). exists (c :: p), s, e'. auto.
Qed.

Lemma in_matches r t x : In x (matches r t) -> exists cs, In (Mt x cs) (segs r 0 t).
Proof.
  unfold matches. intros H. apply in_flat_map in H as [[c | y cs] [Hi Hx]]; [destruct Hx |].
  destruct Hx as [<- | []]. eauto.
Qed.

Lemma in_group1s r t x :
  In x (group1s r t) -> exists y cs g, In (Mt y cs) (segs r 0 t) /\
                                      find (fun p => Nat.eqb (fst p) 1) cs = Some (g, x).
Proof.
  unfold group1s. intros H. apply in_flat_map in H as [[c | y cs] [Hi Hx]]; [destruct Hx |].
  destruct (find _ cs) as [[g z]|] eqn:E; [| destruct Hx]. destruct Hx as [<- | []]. eauto.
Qed.

Lemma markdown_url_shape c x :
  In x (markdown_urls c) ->
  exists p u0, c = p ++ lit_https ++ u0 /\
    x = lit_https ++ firstn (run not_ws_paren u0) u0 /\
    existsb (seg_at u0) (seq 1 (run not_ws_paren u0)) = true.
Proof.
  intros H. apply in_matches in H as [cs H]. apply segs_Mt_origin in H as (p & s & e & -> & H1 & ->).
  rewrite match_url in H1. destruct (strip_prefix lit_https s) as [u0|] eqn:E; [| discriminate].
  destruct (existsb _ _) eqn:Ex; [| discriminate]. injection H1 as <- _.
  apply strip_prefix_some in E. subst s. exists p, u0. split; [reflexivity | split; [| exact Ex]].
  pose proof (run_le not_ws_paren u0).
  rewrite length_app, length_skipn, firstn_app, firstn_all2 by lia. f_equal. f_equal. lia.
Qed.

Lemma comment_url_shape c x :
  In x (comment_urls c) ->
  exists p u0 e, c = p ++ lit_open ++ lit_https ++ u0 /\ run not_ws u0 <> 0 /\
    x = lit_https ++ firstn (run not_ws u0) u0 /\
    strip_prefix lit_close (skipn (run not_ws u0) u0) = Some e.
Proof.
  intros H. apply in_group1s in H as (y & cs & g & H & Hf).
  apply segs_Mt_origin in H as (p & s & e & -> & H1 & _).
  rewrite match_comment in H1. destruct (strip_prefix lit_open s) as [t1|] eqn:E1; [| discriminate].
  destruct (strip_prefix lit_https t1) as [u0|] eqn:E2; [| discriminate].
  destruct (run not_ws u0) as [|n] eqn:Er; [discriminate |].
  destruct (strip_prefix lit_close _) as [e'|] eqn:E3; [| discriminate].
  injection H1 as _ <-. cbn [find fst Nat.eqb] in Hf. injection Hf as _ <-.
  apply strip_prefix_some in E1, E2. subst. exists p, u0, e'.
  rewrite Er. refine (conj eq_refl (conj _ (conj eq_refl E3))). discriminate.
Qed.

Lemma seg_at_occurs u0 :
  existsb (seg_at u0) (seq 1 (run not_ws_paren u0)) = true ->
  occurs lit_segment (firstn (run not_ws_paren u0) u0).
Proof.
  intros H. apply existsb_exists in H as [j [Hj Hs]]. apply in_seq in Hj.
  unfold seg_at in Hs. destruct (strip_prefix lit_segment (skipn j u0)) as [w|] eqn:E; [| discriminate].
  apply strip_prefix_some in E.
  assert (Hr : run not_ws_paren (skipn j u0) = run not_ws_paren u0 - j) by (apply run_skipn; lia).
  rewrite E, run_all in Hr by exact forallb_segment.
  assert (Hu : u0 = firstn j u0 ++ lit_segment ++ w) by (rewrite <- E; symmetry; apply firstn_skipn).
  exists (firstn j u0), (firstn (run not_ws_paren u0 - j - List.length lit_segment) w).
  rewrite Hu at 2. rewrite firstn_app, length_firstn.
  replace (Init.Nat.min j (List.length u0)) with j
    by (pose proof (run_le not_ws_paren u0); lia).
  rewrite firstn_firstn. replace (Init.Nat.min (run not_ws_paren u0) j) with j by lia. f_equal.
  rewrite firstn_app, firstn_all2 by lia. reflexivity.
Qed.

Lemma not_ws_paren_not_ws s : forallb not_ws_paren s = true -> forallb not_ws s = true.
Proof.
  induction s as [|c s IH]; [reflexivity |]. cbn [forallb]. intros H.
  apply andb_true_iff in H as [H1 H2]. rewrite (IH H2), andb_true_r.
  unfold not_ws_paren, not_ws in *. destruct (is_ws c); [discriminate | reflexivity].
Qed.

Lemma empty_no_member {A} (l : list A) : (forall x, ~ In x l) -> l = [].
Proof. destruct l as [|a l]; [reflexivity |]. intros H. exfalso. apply (H a). now left. Qed.

Lemma occurs_app_l P A F : occurs P F -> occurs P (A ++ F).
Proof. intros [x [y ->]]. exists (A ++ x), y. now rewrite app_assoc. Qed.

Lemma firstn_nonempty {A} n (l : list A) : 0 < n -> n <= List.length l -> firstn n l <> [].
Proof.
  intros H1 H2 E. apply (f_equal (@List.length A)) in E. rewrite length_firstn in E.
  cbn in E. lia.
Qed.

Lemma seg_at_run u0 : existsb (seg_at u0) (seq 1 (run not_ws_paren u0)) = true -> 0 < run not_ws_paren u0.
Proof. destruct (run not_ws_paren u0); [discriminate | intros _; lia]. Qed.

Lemma extract_url_cases c v :
  In v (extractFileUrls c) ->
  (exists p u0 e, c = p ++ lit_open ++ lit_https ++ u0 /\ run not_ws u0 <> 0 /\
     v = lit_https ++ firstn (run not_ws u0) u0 /\
     strip_prefix lit_close (skipn (run not_ws u0) u0) = Some e) \/
  (exists p u0, c = p ++ lit_https ++ u0 /\
     v = lit_https ++ firstn (run not_ws_paren u0) u0 /\
     existsb (seg_at u0) (seq 1 (run not_ws_paren u0)) = true).
Proof.
  intros H. apply extract_In in H as [H | H].
  - left. now apply comment_url_shape.
  - right. now apply markdown_url_shape.
Qed.

Lemma last_app_nonempty {A} (l L : list A) d : L <> [] -> last (l ++ L) d = last L d.
Proof.
  intros H. induction l as [|a l IH]; [reflexivity |]. cbn [app]. rewrite <- IH.
  destruct (l ++ L) eqn:E; [apply app_eq_nil in E as [_ E]; contradiction | reflexivity].
Qed.

Lemma split_on_sep_prefix sep a b :
  exists ws, split_on sep (a ++ sep :: b) = ws ++ split_on sep b /\ ws <> [].
Proof.
  induction a as [|c a IH].
  - exists [[]]. cbn [app split_on]. rewrite N.eqb_refl. split; [reflexivity | discriminate].
  - destruct IH as [ws [E Hne]]. cbn [app split_on]. rewrite E. destruct (N.eqb c sep).
    + exists ([] :: ws). split; [reflexivity | discriminate].
    + destruct ws as [|w ws]; [contradiction |]. exists ((c :: w) :: ws).
      split; [reflexivity | discriminate].
Qed.

Lemma last_split_on_app_sep sep a b :
  last (split_on sep (a ++ sep :: b)) [] = last (split_on sep b) [].
Proof.
  destruct (split_on_sep_prefix sep a b) as [ws [E _]]. rewrite E.
  apply last_app_nonempty, split_on_nonempty.
Qed.

Lemma split_on_sub sep s w c : In w (split_on sep s) -> In c w -> In c s.
Proof.
  revert w. induction s as [|d s IH]; intros w Hw Hc; cbn [split_on] in Hw.
  - destruct Hw as [<- | []]. destruct Hc.
  - destruct (N.eqb d sep).
    + destruct Hw as [<- | Hw]; [destruct Hc | right; exact (IH _ Hw Hc)].
    + destruct (split_on sep s) as [|w0 ws] eqn:Es; [exfalso; exact (split_on_nonempty sep s Es) |].
      destruct Hw as [<- | Hw].
      * destruct Hc as [<- | Hc]; [now left | right; apply (IH w0); [now left | exact Hc]].
      * right. apply (IH w); [now right | exact Hc].
Qed.

Lemma last_split_notin sep c s : ~ In c s -> ~ In c (last (split_on sep s) []).
Proof. intros H Hc. apply H. exact (split_on_sub sep s _ c (last_In_split sep s) Hc). Qed.

Lemma elem_or_notin c (l : list ustr) i (d : ustr) : (forall w, In w l -> ~ In c w) -> ~ In c d -> ~ In c (elem_or l i d).
Proof.
  intros Hl Hd. unfold elem_or. destruct (nth_error l i) as [w|] eqn:E; [| exact Hd].
  destruct w as [|a w]; [exact Hd |]. apply Hl. exact (nth_error_In l i E).
Qed.

Lemma elem_or_single (w d : ustr) : w <> [] -> elem_or [w] 0 d = w.
Proof. destruct w; [contradiction | reflexivity]. Qed.

(** The extension [storage_path] takes from the display name comes from the
    file's name or, for a generated name, from its type. *)
Lemma ext_notin c iso file :
  ~ In c (file_name file) -> (c = 47%N \/ ~ In c (file_type file)) -> ~ In c (u "png") ->
  ~ In c (pop_last (split_on 46 (display_name iso file))).
Proof.
  intros Hn Ht Hp. unfold pop_last, display_name. cbv zeta.
  destruct (is_generic_name (file_name file)); [| now apply last_split_notin].
  rewrite app_assoc. change (u "." ++ ?x) with (46%N :: x).
  rewrite last_split_on_app_sep. apply last_split_notin, elem_or_notin; [| exact Hp].
  intros w Hw. destruct Ht as [-> | Ht].
  - exact (split_on_pieces _ _ _ Hw).
  - intros Hc. apply Ht. exact (split_on_sub _ _ _ _ Hw Hc).
Qed.

Lemma png_no_slash : ~ In 47%N (u "png").
Proof. vm_compute. intros H. repeat destruct H as [H | H]; try discriminate H; contradiction. Qed.

Lemma png_no_query : ~ In 63%N (u "png").
Proof. vm_compute. intros H. repeat destruct H as [H | H]; try discriminate H; contradiction. Qed.

(** The last [/]-segment of a public url of a storage key is the key's file
    part. *)
Lemma last_segment_public_url base userId X :
  ~ In 47%N X -> last (split_on 47 (base ++ u "/" ++ userId ++ u "/" ++ X)) [] = X.
Proof.
  intros HX. change (u "/" ++ userId ++ u "/" ++ X) with (47%N :: userId ++ 47%N :: X).
  replace (base ++ 47%N :: userId ++ 47%N :: X) with ((base ++ 47%N :: userId) ++ 47%N :: X)
    by (rewrite <- app_assoc; reflexivity).
  rewrite last_split_on_app_sep, split_on_notin by exact HX. reflexivity.
Qed.

Lemma notin_key c fileId ext : c <> 46%N -> ~ In c fileId -> ~ In c ext -> ~ In c (fileId ++ u "." ++ ext).
Proof.
  intros H1 H2 H3 Hc. change (u "." ++ ?x) with (46%N :: x) in Hc.
  apply in_app_iff in Hc as [Hc | [Hc | Hc]]; [exact (H2 Hc) | exact (H1 (eq_sym Hc)) | exact (H3 Hc)].
Qed.

Lemma map_url_filter (R : list UploadedFile) (v : ustr) :
  map url (filter (fun file => negb (ustr_eqb (url file) v)) R) = filter (fun w => negb (ustr_eqb w v)) (map url R).
Proof.
  induction R as [|f R IH]; [reflexivity |]. cbn [filter map].
  destruct (ustr_eqb (url f) v); cbn [negb map]; [exact IH | now rewrite IH].
Qed.

Lemma Forall_filter_sub {A} (P : A -> Prop) (f : A -> bool) l : Forall P l -> Forall P (filter f l).
Proof.
  intros H. apply Forall_forall. intros x Hx. apply filter_In in Hx as [Hx _].
  exact (proj1 (Forall_forall _ _) H x Hx).
Qed.

Lemma saved_without (c : ustr) (R : list UploadedFile) (g : UploadedFile) :
  Forall wf_file R ->
  extractFileUrls (content_with_files c (filter (fun file => negb (ustr_eqb (url file) (url g))) R))
    = dedup (extractFileUrls c ++ filter (fun v => negb (ustr_eqb v (url g))) (map url R)) /\
  (~ In (url g) (extractFileUrls c) ->
   ~ In (url g) (extractFileUrls (content_with_files c (filter (fun file => negb (ustr_eqb (url file) (url g))) R)))).
Proof.
  intros Hw. rewrite extract_content_with_files by now apply Forall_filter_sub.
  rewrite map_url_filter. split; [reflexivity |].
  intros Hc Hin. apply dedup_In, in_app_iff in Hin as [Hin | Hin]; [contradiction |].
  apply filter_In in Hin as [_ Hb]. rewrite (proj2 (ustr_eqb_spec _ _) eq_refl) in Hb. discriminate.
Qed.

Lemma starts_with_nl s : starts_with s [10%N] = true -> exists r, s = 10%N :: r.
Proof.
  destruct s as [|d s]; [discriminate |]. cbn [starts_with].
  intros E. apply andb_true_iff in E as [E _]. apply N.eqb_eq in E. subst. eauto.
Qed.

Lemma ends_cr_cons (d : N) t : (exists x, d :: t = x ++ [13%N]) -> (t = [] /\ d = 13%N) \/ exists x, t = x ++ [13%N].
Proof.
  intros [[|a x] E].
  - left. injection E as -> ->. split; reflexivity.
  - right. injection E as _ E. eauto.
Qed.

Lemma first_line_shape s :
  ~ In 10%N (first_line s) /\
  (s = first_line s \/
   (exists r, s = first_line s ++ 10%N :: r /\ ~ (exists x, first_line s = x ++ [13%N])) \/
   exists r, s = first_line s ++ 13%N :: 10%N :: r).
Proof.
  induction s as [|d s [IH1 IH2]]; [split; [intros [] | now left] |]. cbn [first_line].
  destruct (N.eqb d 10) eqn:E1.
  - apply N.eqb_eq in E1. subst d. split; [intros [] |]. right. left. exists s.
    split; [reflexivity |]. intros [x Hx]. destruct x; discriminate.
  - destruct (N.eqb d 13 && starts_with s [10%N]) eqn:E2.
    + apply andb_true_iff in E2 as [E2 E3]. apply N.eqb_eq in E2. subst d.
      apply starts_with_nl in E3 as [r ->]. split; [intros [] |]. right. right. exists r. reflexivity.
    + split.
      * intros [H | H]; [subst; now rewrite N.eqb_refl in E1 | exact (IH1 H)].
      * destruct IH2 as [H | [[r [H Hn]] | [r H]]].
        -- left. now rewrite <- H.
        -- right. left. exists r. split; [rewrite H at 1; reflexivity |].
           intros Hx. apply ends_cr_cons in Hx as [[Ht ->] | Hx]; [| exact (Hn Hx)].
           rewrite Ht in H. cbn [app] in H. subst s. destruct r; vm_compute in E2; discriminate E2.
        -- right. right. exists r. rewrite H at 1. reflexivity.
Qed.

Lemma first_line_empty s : s <> [] -> (first_line s = [] <-> exists r, s = 10%N :: r \/ s = 13%N :: 10%N :: r).
Proof.
  destruct s as [|d s]; [contradiction |]. intros _. cbn [first_line]. split.
  - destruct (N.eqb d 10) eqn:E1; [apply N.eqb_eq in E1; subst; eauto |].
    destruct (N.eqb d 13 && starts_with s [10%N]) eqn:E2; [| discriminate].
    apply andb_true_iff in E2 as [E2 E3]. apply N.eqb_eq in E2. subst d.
    apply starts_with_nl in E3 as [r ->]. eauto.
  - intros [r [E | E]]; injection E as -> ->; [reflexivity | destruct r; reflexivity].
Qed.

Lemma trim_nonempty s : trim s <> [] -> s <> [].
Proof. intros H ->. apply H. reflexivity. Qed.

Lemma select_file_step maxSize publicUrl st ev :
  exists R, select_file maxSize publicUrl st ev
            = mkEdit (isEditing st) (editName st) (editContent st) (attachedFiles st ++ R) /\
    Forall (fun f => (size f <= maxSize * 1024 * 1024)%N) R.
Proof.
  unfold select_file, handleFileSelect.
  destruct (N.ltb (maxSize * 1024 * 1024) (file_size (sel_file ev))) eqn:L.
  - exists []. rewrite app_nil_r. split; [now destruct st | constructor].
  - destruct (sel_user ev) as [uid|]; [| exists []; rewrite app_nil_r; split; [now destruct st | constructor]].
    cbn [uploadSubtaskAttachment]. destruct (sel_error ev).
    + exists []. rewrite app_nil_r. split; [now destruct st | constructor].
    + eexists. split; [reflexivity |]. constructor; [| constructor]. cbn [size].
      apply N.ltb_ge in L. exact L.
Qed.

Lemma run_checks_cons decode sess i ticks st :
  run_checks decode sess (i :: ticks) st = run_checks decode sess ticks (performSessionCheck decode sess (fst i) (snd i) st).
Proof. reflexivity. Qed.

Lemma clean_keys_is_filter parse is_auth on_corrupt now_ms s : forall ks t keep0,
  (forall k, In k ks -> is_auth k = true) ->
  (forall kv, is_auth (fst kv) = false -> keep0 kv = true) ->
  t = filter keep0 s ->
  exists keep, fold_left (clean_key parse on_corrupt now_ms) ks t = filter keep s /\
               (forall kv, is_auth (fst kv) = false -> keep kv = true).
Proof.
  intros ks. induction ks as [|k ks IH]; intros t keep0 Hks Hk0 ->; [now exists keep0 |].
  cbn [fold_left]. unfold clean_key at 2.
  destruct (getItem k (filter keep0 s)) as [item|]; [destruct (drop_entry _ _ _ _ _) |].
  - apply (IH _ (fun kv => keep0 kv && negb (ustr_eqb (fst kv) k))).
    + intros k' Hk'. apply Hks. now right.
    + intros kv Hkv. rewrite (Hk0 kv Hkv). cbn [andb].
      destruct (ustr_eqb (fst kv) k) eqn:E; [| reflexivity].
      apply ustr_eqb_spec in E. rewrite E, (Hks k (or_introl eq_refl)) in Hkv. discriminate.
    + unfold removeItem. apply filter_filter_and.
  - apply (IH _ keep0); auto. intros k' Hk'. apply Hks. now right.
  - apply (IH _ keep0); auto. intros k' Hk'. apply Hks. now right.
Qed.

Lemma clean_store_is_filter parse is_auth on_corrupt now_ms s :
  exists keep, clean_store parse is_auth on_corrupt now_ms s = filter keep s /\
               (forall kv, is_auth (fst kv) = false -> keep kv = true).
Proof.
  unfold clean_store. apply (clean_keys_is_filter _ _ _ _ _ _ _ (fun _ => true)).
  - intros k Hk. apply filter_In in Hk as [_ Hk]. exact Hk.
  - reflexivity.
  - symmetry. apply filter_all_true. reflexivity.
Qed.

Lemma drop_entry_later parse on_corrupt (t1 t2 : Z) key item :
  (t1 <= t2)%Z -> drop_entry parse on_corrupt t1 key item = true -> drop_entry parse on_corrupt t2 key item = true.
Proof.
  intros Ht. unfold drop_entry. destruct item as [|c w]; [discriminate |].
  destruct (parse (c :: w)) as [[| ea ex |]|]; try (intros H; exact H).
  destruct (truthy ea || truthy ex); [| discriminate].
  destruct (if truthy ea then ea else ex) as [e|]; cbn [lt_claim]; [| discriminate].
  rewrite !Z.ltb_lt. intros H. assert (t1 / 1000 <= t2 / 1000)%Z by (apply Z.div_le_mono; lia). lia.
Qed.


Section LayoutFacts.
Variable splitTextToSize : ustr -> Z -> list ustr.

Definition layout_inv (st : layout) : Prop :=
  (40 <= yPosition st)%Z /\
  forall d y, In d (drawn st) -> draw_y d = Some y -> (40 <= y <= 560)%Z.

Lemma page_break_inv st :
  layout_inv st -> layout_inv (page_break st) /\ (40 <= yPosition (page_break st) <= 560)%Z /\
  exists X, drawn (page_break st) = drawn st ++ X /\ drawn_texts X = [].
Proof.
  intros [H1 H2]. unfold page_break. destruct (Z.ltb_spec 560 (yPosition st)).
  - unfold layout_inv. cbn [yPosition drawn]. split; [split; [lia |] | split; [lia | exists [NewPage]; split; reflexivity]].
    intros d y Hd Hy. apply in_app_iff in Hd as [Hd | [<- | []]]; [exact (H2 d y Hd Hy) | discriminate Hy].
  - split; [split; assumption | split; [lia | exists []; split; [now rewrite app_nil_r | reflexivity]]].
Qed.

Lemma add_text_lines_inv fontSize lines : forall st,
  (0 <= fontSize)%Z -> layout_inv st ->
  layout_inv (fold_left (add_text_line fontSize) lines st) /\
  exists X, drawn (fold_left (add_text_line fontSize) lines st) = drawn st ++ X /\ drawn_texts X = lines.
Proof.
  induction lines as [|line lines IH]; intros st Hf Hi.
  - split; [exact Hi | exists []; split; [now rewrite app_nil_r | reflexivity]].
  - cbn [fold_left]. destruct (page_break_inv st Hi) as [[P1 P2] [P3 [X1 [E1 T1]]]].
    assert (Hn : layout_inv (add_text_line fontSize st line)).
    { unfold add_text_line. cbv zeta. split; cbn [yPosition drawn]; [lia |].
      intros d y Hd Hy. apply in_app_iff in Hd as [Hd | [<- | []]]; [exact (P2 d y Hd Hy) |].
      injection Hy as <-. lia. }
    destruct (IH _ Hf Hn) as [I1 [X2 [E2 T2]]]. split; [exact I1 |].
    exists (X1 ++ DrawText line (yPosition (page_break st)) :: X2). split.
    + rewrite E2. unfold add_text_line. cbv zeta. cbn [drawn]. rewrite E1, <- !app_assoc. reflexivity.
    + unfold drawn_texts in *. rewrite flat_map_app, T1. cbn [flat_map app]. now rewrite T2.
Qed.

Lemma run_op_inv st op :
  (0 <= op_font_size op)%Z -> layout_inv st ->
  layout_inv (run_op splitTextToSize st op) /\
  exists X, drawn (run_op splitTextToSize st op) = drawn st ++ X /\ drawn_texts X = op_lines splitTextToSize op.
Proof.
  intros Hf Hi. destruct op as [text fontSize | |]; cbn [run_op op_lines op_font_size] in *.
  - unfold addText. cbv zeta.
    destruct (add_text_lines_inv fontSize (splitTextToSize text fontSize) st Hf Hi) as [[I1 I2] HX].
    split; [split; cbn [yPosition drawn]; [lia | exact I2] | exact HX].
  - destruct (page_break_inv st Hi) as [[P1 P2] [P3 [X1 [E1 T1]]]]. unfold addLine. cbv zeta.
    split.
    + split; cbn [yPosition drawn]; [lia |]. intros d y Hd Hy.
      apply in_app_iff in Hd as [Hd | [<- | []]]; [exact (P2 d y Hd Hy) |]. injection Hy as <-. lia.
    + exists (X1 ++ [DrawLine (yPosition (page_break st))]). cbn [drawn]. rewrite E1, <- app_assoc.
      split; [reflexivity |]. unfold drawn_texts in *. rewrite flat_map_app, T1. reflexivity.
  - destruct Hi as [H1 H2]. split; [split; cbn [yPosition drawn]; [lia | exact H2] |].
    exists []. split; [now rewrite app_nil_r | reflexivity].
Qed.

Lemma run_ops_inv ops : forall st,
  Forall (fun op => (0 <= op_font_size op)%Z) ops -> layout_inv st ->
  layout_inv (fold_left (run_op splitTextToSize) ops st) /\
  drawn_texts (drawn (fold_left (run_op splitTextToSize) ops st))
    = drawn_texts (drawn st) ++ flat_map (op_lines splitTextToSize) ops.
Proof.
  induction ops as [|op ops IH]; intros st Hf Hi.
  - split; [exact Hi | cbn; now rewrite app_nil_r].
  - inversion Hf as [| ? ? Hf1 Hf2]; subst. cbn [fold_left flat_map].
    destruct (run_op_inv st op Hf1 Hi) as [I1 [X [E T]]].
    destruct (IH _ Hf2 I1) as [J1 J2]. split; [exact J1 |].
    rewrite J2, E. unfold drawn_texts in *. rewrite flat_map_app, T, app_assoc. reflexivity.
Qed.

End LayoutFacts.

Lemma firstn_map_length {A B} (f : A -> B) n (l : list A) : List.length (firstn n (map f l)) = Nat.min n (List.length l).
Proof. now rewrite length_firstn, length_map. Qed.

(** * Claims *)

(** C1. Over successive edit sessions of a subtask (open the
    editor on the persisted content, upload a batch of well-formed
    attachments, save), the references extracted from the final content are
    those extracted from the initial content followed by the urls of every
    batch in upload order, deduplicated keeping first occurrences. The
    initial content is not ignored: a url it already carries is still
    extracted. *)
Theorem edit_rounds_extract (n c : ustr) (Rs : list (list UploadedFile)) :
  trim n <> [] -> Forall (Forall wf_file) Rs ->
  extractFileUrls (edit_rounds n c Rs) = dedup (extractFileUrls c ++ List.concat (map (map url) Rs)).
Proof.
  intros Hn. unfold edit_rounds. revert c.
  induction Rs as [|R Rs IH]; intros c HRs; simpl.
  - rewrite app_nil_r. unfold extractFileUrls. now rewrite dedup_idem.
  - inversion HRs as [|? ? HR HRs']; subst.
    rewrite IH by assumption. rewrite edit_round_eq by assumption.
    rewrite extract_content_with_files by assumption.
    rewrite dedup_app_dedup, app_assoc. reflexivity.
Qed.

Lemma edit_rounds_extract_witness :
  trim (u "task") <> [] /\ Forall (Forall wf_file) [[file_a U1; file_b U2]] /\
  extractFileUrls (edit_rounds (u "task") [] [[file_a U1; file_b U2]])
  = dedup (extractFileUrls [] ++ List.concat (map (map url) [[file_a U1; file_b U2]])).
Proof.
  assert (H1 : trim (u "task") <> []) by discriminate.
  assert (H2 : Forall (Forall wf_file) [[file_a U1; file_b U2]])
    by (repeat constructor; first [apply wf_file_a, wf_U1 | apply wf_file_b, wf_U2]).
  split; [exact H1 | split; [exact H2 |]].
  exact (edit_rounds_extract (u "task") [] [[file_a U1; file_b U2]] H1 H2).
Defined.

(** C1 counterexample: content that already carries a bare attachment url,
    one more upload; the extract is not just the uploaded url. *)
Lemma edit_rounds_extract_counterexample :
  let c := lit_https ++ u "h/subtask-attachments/x" in
  extractFileUrls (edit_round (u "task") c [file_a U1]) = [c; U1] /\
  extractFileUrls (edit_round (u "task") c [file_a U1]) <> dedup (map url [file_a U1]).
Proof. vm_compute. split; [reflexivity | discriminate]. Qed.

(** C2. Editing a subtask with empty content, uploading
    [a.png] at [v1] and [b.pdf] at [v2] and saving persists
    [![a.png](v1)\n![b.pdf](v2)] (Markdown image links, not comment
    sentinels); the new-subtask form writes the same string; extract on it
    returns [[v1; v2]]. *)
Theorem scenario_save (v1 v2 : ustr) :
  wf_url v1 -> wf_url v2 -> v1 <> v2 ->
  snd (handleSave (scenario_with v1 v2))
    = Some (u "task", (u "![a.png](" ++ v1 ++ u ")") ++ nl :: u "![b.pdf](" ++ v2 ++ u ")") /\
  snd (handleSubmit (form_scenario_with v1 v2))
    = Some (u "task", (u "![a.png](" ++ v1 ++ u ")") ++ nl :: u "![b.pdf](" ++ v2 ++ u ")") /\
  extractFileUrls ((u "![a.png](" ++ v1 ++ u ")") ++ nl :: u "![b.pdf](" ++ v2 ++ u ")") = [v1; v2].
Proof.
  intros H1 H2 Hne. split; [reflexivity | split; [reflexivity |]].
  change ((u "![a.png](" ++ v1 ++ u ")") ++ nl :: u "![b.pdf](" ++ v2 ++ u ")")
    with (content_with_files [] [file_a v1; file_b v2]).
  rewrite extract_content_with_files
    by (repeat constructor; first [apply wf_file_a, H1 | apply wf_file_b, H2]).
  unfold dedup. apply fold_set_add_nodup. simpl.
  constructor; [intros [H | []]; congruence | constructor; [intros [] | constructor]].
Qed.

Lemma scenario_save_witness :
  wf_url U1 /\ wf_url U2 /\ U1 <> U2 /\
  snd (handleSave (scenario_with U1 U2))
    = Some (u "task", (u "![a.png](" ++ U1 ++ u ")") ++ nl :: u "![b.pdf](" ++ U2 ++ u ")") /\
  snd (handleSubmit (form_scenario_with U1 U2))
    = Some (u "task", (u "![a.png](" ++ U1 ++ u ")") ++ nl :: u "![b.pdf](" ++ U2 ++ u ")") /\
  extractFileUrls ((u "![a.png](" ++ U1 ++ u ")") ++ nl :: u "![b.pdf](" ++ U2 ++ u ")") = [U1; U2].
Proof.
  assert (Hne : U1 <> U2) by (vm_compute; discriminate).
  split; [exact wf_U1 | split; [exact wf_U2 | split; [exact Hne |]]].
  exact (scenario_save U1 U2 wf_U1 wf_U2 Hne).
Defined.

(** C2 counterexample: the saved content is not the sentinel string (which
    extract would also map to [[U1; U2]]). *)
Lemma scenario_save_counterexample :
  (forall nm, snd (handleSave scenario_state) <> Some (nm, sentinel U1 ++ nl :: sentinel U2)) /\
  extractFileUrls (sentinel U1 ++ nl :: sentinel U2) = [U1; U2].
Proof.
  split.
  - intros nm. vm_compute. intros H. injection H. intros. discriminate.
  - vm_compute. reflexivity.
Qed.

(** C4. extract returns the urls of the comment sentinels in
    textual order followed by every match of the attachment-url pattern
    anywhere in the content (inside Markdown images, inside the sentinels,
    or bare), deduplicated: the first copy of a url is kept where it
    stands, its later copies are dropped, nothing is reordered. The result
    has no duplicates, holds exactly the urls of the two scans, and a url
    found by both scans comes out once. *)
Theorem extract_order_dedup (c : ustr) :
  extractFileUrls c = dedup (comment_urls c ++ markdown_urls c) /\
  (forall x l, dedup (x :: l) = x :: filter (fun y => negb (ustr_eqb y x)) (dedup l)) /\
  (forall l, NoDup l -> dedup l = l) /\
  NoDup (extractFileUrls c) /\
  (forall x, In x (extractFileUrls c) <-> In x (comment_urls c) \/ In x (markdown_urls c)) /\
  (forall x, In x (comment_urls c) -> In x (markdown_urls c) ->
             count_occ (list_eq_dec N.eq_dec) (extractFileUrls c) x = 1).
Proof.
  split; [reflexivity|]. split; [exact dedup_cons|].
  split; [intros l Hl; apply fold_set_add_nodup; exact Hl|].
  split; [apply dedup_NoDup|]. split; [intros x; apply extract_In|].
  intros x Hc _. apply NoDup_count_occ_1; [apply dedup_NoDup | apply extract_In; now left].
Qed.

Lemma extract_order_dedup_witness :
  In U1 (comment_urls (sentinel U1 ++ nl :: u "![a](" ++ U1 ++ u ")")) /\
  In U1 (markdown_urls (sentinel U1 ++ nl :: u "![a](" ++ U1 ++ u ")")) /\
  count_occ (list_eq_dec N.eq_dec)
    (extractFileUrls (sentinel U1 ++ nl :: u "![a](" ++ U1 ++ u ")")) U1 = 1.
Proof.
  assert (H1 : In U1 (comment_urls (sentinel U1 ++ nl :: u "![a](" ++ U1 ++ u ")")))
    by (vm_compute; left; reflexivity).
  assert (H2 : In U1 (markdown_urls (sentinel U1 ++ nl :: u "![a](" ++ U1 ++ u ")")))
    by (vm_compute; left; reflexivity).
  split; [exact H1 | split; [exact H2 |]].
  exact (proj2 (proj2 (proj2 (proj2 (proj2 (extract_order_dedup _))))) U1 H1 H2).
Defined.

(** C4 counterexample: a bare attachment url, with no Markdown image and no
    sentinel in the content, is returned; and the second scan also finds
    the url inside a sentinel. *)
Lemma extract_order_dedup_counterexample :
  let c := u "see " ++ lit_https ++ u "h/subtask-attachments/f" in
  includes c (u "![") = false /\ includes c (u "<!--") = false /\
  extractFileUrls c = [lit_https ++ u "h/subtask-attachments/f"] /\
  markdown_urls (sentinel U1) = [U1].
Proof. vm_compute. repeat split. Qed.

(** C10. extract accepts more than the two documented forms: (1) a bare url
    [https://<a>/subtask-attachments/<b>] delimited on both sides by the
    text edges, whitespace or [)] is returned wherever it stands; (2) a
    sentinel [<!-- attachment: https://<w> -->] anywhere in the content
    yields its url, whether or not it contains [/subtask-attachments/]. *)
Theorem extract_accepts_more :
  (forall a v b, wf_url v ->
     (a = [] \/ exists a' d, a = a' ++ [d] /\ not_ws_paren d = false) ->
     run not_ws_paren b = 0 ->
     In v (extractFileUrls (a ++ v ++ b))) /\
  (forall a w b, w <> [] -> forallb not_ws w = true ->
     In (lit_https ++ w) (extractFileUrls (a ++ sentinel (lit_https ++ w) ++ b))).
Proof.
  split.
  - intros a v b Hv Ha Hb. apply extract_In. right. unfold markdown_urls, matches.
    assert (Hne : v <> []) by (destruct Hv as (x & y & -> & _); destruct lit_https eqn:E; discriminate).
    assert (Hreach : exists items, segs fileUrlRegex 0 (a ++ v ++ b) = items ++ segs fileUrlRegex 0 (v ++ b)).
    { destruct Ha as [-> | (a' & d & -> & Hd)]; [exists []; reflexivity|].
      apply (segs_reach _ _ (List.length (a' ++ [d]))); [lia|].
      intros A1 A2 HA HA2 e cs H. exact (url_no_overlap a' d _ Hd A1 A2 HA HA2 e cs H). }
    destruct Hreach as [items Hi]. rewrite Hi.
    rewrite (segs_match _ _ v b [] (url_match_stop v b Hv Hb) eq_refl Hne).
    apply in_flat_map_items_md.
  - intros a w b Hw Hc. apply extract_In. left. unfold comment_urls, group1s.
    assert (Hreach : exists items, segs commentRegex 0 (a ++ sentinel (lit_https ++ w) ++ b)
                                   = items ++ segs commentRegex 0 (sentinel (lit_https ++ w) ++ b)).
    { apply (segs_reach _ _ (List.length a)); [lia|].
      intros A1 A2 _ HA2 e cs H. unfold sentinel in *. rewrite <- !app_assoc in *.
      exact (comment_no_overlap A2 _ HA2 e cs H). }
    destruct Hreach as [items Hi]. rewrite Hi.
    rewrite (segs_match _ _ (sentinel (lit_https ++ w)) b _ (match_sentinel w b Hw Hc) eq_refl)
      by (unfold sentinel; destruct lit_open eqn:E; discriminate).
    apply in_flat_map_items_cm.
Qed.

Lemma extract_accepts_more_witness :
  (wf_url U1 /\ u "see " = u "see" ++ [32%N] /\ not_ws_paren 32 = false /\
   run not_ws_paren (u " now") = 0 /\ In U1 (extractFileUrls (u "see " ++ U1 ++ u " now"))) /\
  (u "example.com/a.png" <> [] /\ forallb not_ws (u "example.com/a.png") = true /\
   In (lit_https ++ u "example.com/a.png")
      (extractFileUrls (u "x" ++ sentinel (lit_https ++ u "example.com/a.png") ++ u "y"))).
Proof.
  assert (H1 : u "see " = u "see" ++ [32%N]) by reflexivity.
  assert (H2 : not_ws_paren 32 = false) by reflexivity.
  assert (H3 : run not_ws_paren (u " now") = 0) by reflexivity.
  assert (H4 : u "example.com/a.png" <> []) by discriminate.
  assert (H5 : forallb not_ws (u "example.com/a.png") = true) by reflexivity.
  split.
  - split; [exact wf_U1 | split; [exact H1 | split; [exact H2 | split; [exact H3 |]]]].
    apply (proj1 extract_accepts_more); [exact wf_U1 | right; exists (u "see"), 32%N; split; assumption | exact H3].
  - split; [exact H4 | split; [exact H5 |]].
    apply (proj2 extract_accepts_more); [exact H4 | exact H5].
Defined.

(** C9. PDF-export cleaning. For a description made of plain text (no [![]
    and no [<!--]), single-line image links [![alt](url)] with no [](] in
    the alt text and no [)] in the url, and HTML comments whose body has no
    [-->] and no [![], the task description is cleaned to the same text with
    each image link replaced by [[image]] and each comment deleted; a
    subtask description is cleaned to that result trimmed of surrounding
    whitespace. *)
Theorem clean_content_display (t0 : ustr) (ps : list (piece * ustr)) :
  text_ok t0 ->
  Forall (fun pt => piece_ok (fst pt) /\ text_ok (snd pt)) ps ->
  clean_task_content (t0 ++ render_rest ps) = t0 ++ display_rest ps /\
  clean_subtask_content (t0 ++ render_rest ps) = trim (t0 ++ display_rest ps).
Proof.
  intros [Ht1 Ht2] Hps.
  assert (E : clean_task_content (t0 ++ render_rest ps) = t0 ++ display_rest ps).
  { unfold clean_task_content.
    assert (HX1 : forall c X', render_rest ps = c :: X' -> ~ In c (tl lit_img_open)).
    { intros c X' E. destruct (render_rest_head _ _ _ E) as [-> | ->]; notin. }
    assert (HX2 : forall c X', pass1_rest ps = c :: X' -> ~ In c (tl lit_cm_open)).
    { intros c X' E. destruct (pass1_rest_head _ _ _ E) as [-> | ->]; notin. }
    rewrite replace_nomatch
      by exact (lit_region _ _ _ _ image_needs_open (not_occurs_includes _ _ Ht1) HX1).
    rewrite pass1_ok by exact Hps.
    rewrite replace_nomatch
      by exact (lit_region _ _ _ _ comment_needs_open (not_occurs_includes _ _ Ht2) HX2).
    now rewrite pass2_ok by exact Hps. }
  split; [exact E | unfold clean_subtask_content; now rewrite E].
Qed.

Lemma clean_content_display_witness :
  let t0 := u "See " in
  let ps := [(Img (u "a.png") U1, u " and "); (Cmt (u " attachment: x "), u " end ")] in
  (text_ok t0 /\ Forall (fun pt => piece_ok (fst pt) /\ text_ok (snd pt)) ps) /\
  clean_task_content (t0 ++ render_rest ps) = t0 ++ display_rest ps /\
  clean_subtask_content (t0 ++ render_rest ps) = trim (t0 ++ display_rest ps).
Proof.
  intros t0 ps.
  assert (H1 : text_ok t0) by (split; reflexivity).
  assert (H2 : Forall (fun pt => piece_ok (fst pt) /\ text_ok (snd pt)) ps)
    by (repeat constructor).
  split; [split; assumption |].
  exact (clean_content_display t0 ps H1 H2).
Defined.

Lemma clean_content_display_counterexample :
  clean_subtask_content (u " hi") = u "hi" /\
  clean_task_content (u "a<!-- note -->b") = u "ab".
Proof. vm_compute. repeat split. Qed.

(** C3. Liveness threshold of [performSessionCheck] with [maxRetries = 3],
    for a held session: a successful validation resets the counter to 0
    without signing out; a failed one increments it, and when it reaches
    [maxRetries] the check purges the cached credentials, signs out once
    and resets the counter.  So the counter stays below [maxRetries], three
    consecutive failures from 0 sign out exactly once (on the third) and
    leave the counter at 0, and a success after one or two failures
    resets it with no sign-out. *)
Theorem session_check_threshold (decode : option ustr -> option payload) (s : session) :
  (forall now resp st,
     let st' := performSessionCheck decode (Some s) now resp st in
     if validation_outcome decode (access_token s) now resp
     then retryCount st' = 0 /\ signouts st' = signouts st
     else if Nat.leb maxRetries (S (retryCount st))
          then retryCount st' = 0 /\ signouts st' = S (signouts st)
               /\ exists pre, (pre = [] \/ pre = [GetUser]) /\
                               effects st' = effects st ++ pre ++ [Cleanup; SignOut]
          else retryCount st' = S (retryCount st) /\ signouts st' = signouts st) /\
  (forall sess ticks st, retryCount st < maxRetries ->
     retryCount (run_checks decode sess ticks st) < maxRetries) /\
  (forall i1 i2 i3 st, retryCount st = 0 ->
     Forall (fun i => validation_outcome decode (access_token s) (fst i) (snd i) = false)
            [i1; i2; i3] ->
     signouts (run_checks decode (Some s) [i1; i2] st) = signouts st /\
     retryCount (run_checks decode (Some s) [i1; i2; i3] st) = 0 /\
     signouts (run_checks decode (Some s) [i1; i2; i3] st) = S (signouts st)) /\
  (forall fails i st, retryCount st = 0 -> 1 <= List.length fails <= 2 ->
     Forall (fun j => validation_outcome decode (access_token s) (fst j) (snd j) = false) fails ->
     validation_outcome decode (access_token s) (fst i) (snd i) = true ->
     retryCount (run_checks decode (Some s) (fails ++ [i]) st) = 0 /\
     signouts (run_checks decode (Some s) (fails ++ [i]) st) = signouts st).
Proof.
  split; [| split; [| split]].
  - intros now resp st. cbv zeta.
    pose proof (check_step decode s now resp st) as Hs. cbv zeta in Hs.
    destruct (validation_outcome decode (access_token s) now resp) eqn:V; [exact Hs |].
    destruct (Nat.leb maxRetries (S (retryCount st))) eqn:L; [| exact Hs].
    destruct Hs as [H1 H2]. split; [exact H1 | split; [exact H2 |]].
    apply (check_signout_effects decode s now resp st V L).
  - intros sess ticks st H. apply run_checks_bound, H.
  - intros i1 i2 i3 st H0 HF. inversion HF as [| ? ? F1 HF2]; subst.
    inversion HF2 as [| ? ? F2 HF3]; subst. inversion HF3 as [| ? ? F3 _]; subst.
    unfold run_checks. cbn [fold_left].
    destruct (check_step_fail decode s (fst i1) (snd i1) st F1 ltac:(unfold maxRetries; lia))
      as [R1 S1].
    set (st1 := performSessionCheck decode (Some s) (fst i1) (snd i1) st) in *.
    destruct (check_step_fail decode s (fst i2) (snd i2) st1 F2 ltac:(unfold maxRetries; lia))
      as [R2 S2].
    set (st2 := performSessionCheck decode (Some s) (fst i2) (snd i2) st1) in *.
    destruct (check_step_signout decode s (fst i3) (snd i3) st2 F3 ltac:(unfold maxRetries; lia))
      as [R3 S3].
    split; [congruence | split; [exact R3 | congruence]].
  - intros fails i st H0 Hlen HF Hi. unfold run_checks. rewrite fold_left_app. cbn [fold_left].
    destruct fails as [| f1 [| f2 [| f3 rest]]]; cbn [List.length] in Hlen; try lia.
    + inversion HF as [| ? ? F1 _]; subst. cbn [fold_left].
      destruct (check_step_fail decode s (fst f1) (snd f1) st F1 ltac:(unfold maxRetries; lia))
        as [R1 S1].
      destruct (check_step_ok decode s (fst i) (snd i)
                  (performSessionCheck decode (Some s) (fst f1) (snd f1) st) Hi) as [R S].
      split; [exact R | congruence].
    + inversion HF as [| ? ? F1 HF2]; subst. inversion HF2 as [| ? ? F2 _]; subst. cbn [fold_left].
      destruct (check_step_fail decode s (fst f1) (snd f1) st F1 ltac:(unfold maxRetries; lia))
        as [R1 S1].
      set (st1 := performSessionCheck decode (Some s) (fst f1) (snd f1) st) in *.
      destruct (check_step_fail decode s (fst f2) (snd f2) st1 F2 ltac:(unfold maxRetries; lia))
        as [R2 S2].
      destruct (check_step_ok decode s (fst i) (snd i)
                  (performSessionCheck decode (Some s) (fst f2) (snd f2) st1) Hi) as [R S].
      split; [exact R | congruence].
Qed.

Lemma session_check_threshold_witness :
  let d := fun _ : option ustr => Some (mkPayload None) in
  let s := mkSession (Some (u "h.p.s")) in
  let bad := (0%Z, AuthError) in
  let good := (0%Z, UserFound) in
  (retryCount (mkSS 0 []) < maxRetries /\
   retryCount (run_checks d (Some s) [bad; bad; bad; bad] (mkSS 0 [])) < maxRetries) /\
  (retryCount (mkSS 0 []) = 0 /\
   Forall (fun i => validation_outcome d (access_token s) (fst i) (snd i) = false) [bad; bad; bad] /\
   signouts (run_checks d (Some s) [bad; bad] (mkSS 0 [])) = 0 /\
   retryCount (run_checks d (Some s) [bad; bad; bad] (mkSS 0 [])) = 0 /\
   signouts (run_checks d (Some s) [bad; bad; bad] (mkSS 0 [])) = 1) /\
  (1 <= List.length [bad; bad] <= 2 /\
   validation_outcome d (access_token s) (fst good) (snd good) = true /\
   retryCount (run_checks d (Some s) ([bad; bad] ++ [good]) (mkSS 0 [])) = 0 /\
   signouts (run_checks d (Some s) ([bad; bad] ++ [good]) (mkSS 0 [])) = 0).
Proof.
  intros d s bad good.
  assert (H0 : retryCount (mkSS 0 []) = 0) by reflexivity.
  assert (HL : retryCount (mkSS 0 []) < maxRetries) by (unfold maxRetries; cbn; lia).
  assert (HF : Forall (fun i => validation_outcome d (access_token s) (fst i) (snd i) = false)
                      [bad; bad; bad]) by (repeat constructor).
  assert (HF2 : Forall (fun i => validation_outcome d (access_token s) (fst i) (snd i) = false)
                       [bad; bad]) by (repeat constructor).
  assert (HG : validation_outcome d (access_token s) (fst good) (snd good) = true) by reflexivity.
  assert (Hn : 1 <= List.length [bad; bad] <= 2) by (cbn; lia).
  destruct (session_check_threshold d s) as (_ & P2 & P3 & P4).
  split; [split; [exact HL | exact (P2 _ _ _ HL)] |].
  split; [split; [exact H0 | split; [exact HF | apply (P3 bad bad bad _ H0 HF)]] |].
  split; [exact Hn | split; [exact HG | apply (P4 [bad; bad] good _ H0 Hn HF2 HG)]].
Defined.

(** C5. [validateSession] fails fast: with no access token (or an empty
    one) it answers [false] without calling the provider and without
    touching the counter; so it does when the decoded [exp] claim is a
    non-zero number below [Math.floor(now_ms / 1000)], and when decoding
    throws.  With a non-empty token that decodes and an [exp] that is
    absent, [0], or not below [Math.floor(now_ms / 1000)] (the current
    second or later), the provider is called ([GetUser] recorded) and its
    answer decides.  A provider error, a missing user or a throwing provider gives
    [false]; [true] only comes from a found user (after one provider call,
    with the counter reset).  Every run ends in one of these answers: the
    function never throws. *)
Theorem validate_fail_fast (decode : option ustr -> option payload) tok now resp st :
  ((tok = None \/ tok = Some []) -> validateSession decode tok now resp st = (false, st)) /\
  (forall t p e, tok = Some t -> decode (nth_error (split_on 46 t) 1) = Some p ->
     exp p = Some e -> e <> 0%Z -> (e < now / 1000)%Z ->
     validateSession decode tok now resp st = (false, st)) /\
  (forall t, tok = Some t -> decode (nth_error (split_on 46 t) 1) = None ->
     validateSession decode tok now resp st = (false, st)) /\
  (forall t p, tok = Some t -> t <> [] -> decode (nth_error (split_on 46 t) 1) = Some p ->
     (exp p = None \/ exp p = Some 0%Z \/ exists e, exp p = Some e /\ (now / 1000 <= e)%Z) ->
     validateSession decode tok now resp st =
       (match resp with UserFound => true | _ => false end,
        mkSS (match resp with UserFound => 0 | _ => retryCount st end) (effects st ++ [GetUser]))) /\
  (resp <> UserFound -> fst (validateSession decode tok now resp st) = false) /\
  (fst (validateSession decode tok now resp st) = true ->
     resp = UserFound /\ snd (validateSession decode tok now resp st) = mkSS 0 (effects st ++ [GetUser])) /\
  (validateSession decode tok now resp st = (false, st) \/
   validateSession decode tok now resp st = (false, mkSS (retryCount st) (effects st ++ [GetUser])) \/
   validateSession decode tok now resp st = (true, mkSS 0 (effects st ++ [GetUser]))).
Proof.
  split; [| split; [| split; [| split; [| split; [| split]]]]].
  - intros [-> | ->]; reflexivity.
  - intros t p e -> Hd He Hne Hlt. unfold validateSession. destruct t as [|c t]; [reflexivity |].
    rewrite Hd, He. unfold truthy, lt_claim.
    rewrite (proj2 (Z.eqb_neq e 0) Hne), (proj2 (Z.ltb_lt e _) Hlt). reflexivity.
  - intros t -> Hd. unfold validateSession. destruct t as [|c t]; [reflexivity |]. now rewrite Hd.
  - intros t p -> Ht Hd Hx. unfold validateSession. destruct t as [|c t]; [contradiction |].
    rewrite Hd. unfold truthy, lt_claim.
    assert (Hb : (match exp p with Some e => negb (e =? 0)%Z | None => false end &&
                  match exp p with Some e => (e <? now / 1000)%Z | None => false end) = false).
    { destruct Hx as [-> | [-> | (e & -> & Hle)]]; [reflexivity | reflexivity |].
      rewrite (proj2 (Z.ltb_ge e _) Hle), andb_false_r. reflexivity. }
    rewrite Hb. destruct resp; reflexivity.
  - intros Hr. unfold validateSession. destruct tok as [[|c t]|]; auto.
    destruct (decode _); auto. destruct (_ && _); auto. destruct resp; auto. congruence.
  - unfold validateSession. destruct tok as [[|c t]|]; cbn [fst]; try discriminate.
    destruct (decode _); cbn [fst]; try discriminate. destruct (_ && _); cbn [fst]; try discriminate.
    destruct resp; cbn [fst snd]; try discriminate. intros _. split; reflexivity.
  - apply validate_cases.
Qed.

Lemma validate_fail_fast_witness :
  let d := fun _ : option ustr => Some (mkPayload (Some 100%Z)) in
  let t := u "h.p.s" in
  d (nth_error (split_on 46 t) 1) = Some (mkPayload (Some 100%Z)) /\
  exp (mkPayload (Some 100%Z)) = Some 100%Z /\ 100%Z <> 0%Z /\ (100 < 200000 / 1000)%Z /\
  validateSession d (Some t) 200000 UserFound (mkSS 2 []) = (false, mkSS 2 []) /\
  (100500 / 1000 <= 100)%Z /\
  validateSession d (Some t) 100500 NoUser (mkSS 2 []) = (false, mkSS 2 [GetUser]).
Proof.
  intros d t.
  assert (H1 : d (nth_error (split_on 46 t) 1) = Some (mkPayload (Some 100%Z))) by reflexivity.
  assert (H2 : exp (mkPayload (Some 100%Z)) = Some 100%Z) by reflexivity.
  assert (H3 : 100%Z <> 0%Z) by discriminate.
  assert (H4 : (100 < 200000 / 1000)%Z) by reflexivity.
  assert (H5 : (100500 / 1000 <= 100)%Z) by (vm_compute; discriminate).
  assert (Ht : t <> []) by discriminate.
  do 4 (split; [assumption |]). split.
  - exact (proj1 (proj2 (validate_fail_fast d (Some t) 200000 UserFound (mkSS 2 [])))
             t _ 100%Z eq_refl H1 H2 H3 H4).
  - split; [exact H5 |].
    exact (proj1 (proj2 (proj2 (proj2 (validate_fail_fast d (Some t) 100500 NoUser (mkSS 2 [])))))
             t _ eq_refl Ht H1 (or_intror (or_intror (ex_intro _ 100%Z (conj H2 H5))))).
Defined.

Lemma validate_fail_fast_counterexample :
  let t := u "h.p.s" in
  (100 * 1000 < 100500)%Z /\
  validateSession (fun _ => Some (mkPayload (Some 100%Z))) (Some t) 100500 NoUser (mkSS 0 [])
    = (false, mkSS 0 [GetUser]) /\
  validateSession (fun _ => Some (mkPayload (Some 0%Z))) (Some t) 100500 NoUser (mkSS 0 [])
    = (false, mkSS 0 [GetUser]) /\
  validateSession (fun _ => Some (mkPayload None)) (Some t) 100500 NoUser (mkSS 0 [])
    = (false, mkSS 0 [GetUser]).
Proof. vm_compute. repeat split. Qed.

(** C6. Upload naming.  A file named [image.png], [blob], the empty name or anything
    starting with [image] is renamed: with the clock's ISO string
    [YYYY-MM-DDTHH:mm:ss.sssZ] the name is
    [screenshot-YYYY-MM-DDTHH-mm-ss.<ext>], where [<ext>] is the MIME
    subtype (the text between the first and second [/] of the type) when
    it is non-empty and [png] otherwise.  Any other name, [report.pdf]
    among them, is kept verbatim. *)
Theorem upload_display_name :
  (forall iso file Y Mo D h mi sec ms,
     (file_name file = u "image.png" \/ file_name file = u "blob" \/ file_name file = [] \/
      starts_with (file_name file) (u "image") = true) ->
     iso = Y ++ u "-" ++ Mo ++ u "-" ++ D ++ u "T" ++ h ++ u ":" ++ mi ++ u ":" ++ sec
             ++ u "." ++ ms ++ u "Z" ->
     List.length Y = 4 -> List.length Mo = 2 -> List.length D = 2 -> List.length h = 2 ->
     List.length mi = 2 -> List.length sec = 2 ->
     forallb is_digit (Y ++ Mo ++ D ++ h ++ mi ++ sec) = true ->
     (forall main sub rest, ~ In 47%N main -> ~ In 47%N sub ->
        (rest = [] \/ exists r', rest = 47%N :: r') ->
        file_type file = main ++ 47%N :: sub ++ rest ->
        display_name iso file =
          u "screenshot-" ++ Y ++ u "-" ++ Mo ++ u "-" ++ D ++ u "T" ++ h ++ u "-" ++ mi
          ++ u "-" ++ sec ++ u "." ++ (match sub with [] => u "png" | _ => sub end)) /\
     (~ In 47%N (file_type file) ->
        display_name iso file =
          u "screenshot-" ++ Y ++ u "-" ++ Mo ++ u "-" ++ D ++ u "T" ++ h ++ u "-" ++ mi
          ++ u "-" ++ sec ++ u "." ++ u "png")) /\
  (forall iso file, is_generic_name (file_name file) = false -> display_name iso file = file_name file) /\
  (forall iso t sz, display_name iso (mkFileIn (u "report.pdf") t sz) = u "report.pdf").
Proof.
  split; [| split].
  - intros iso file Y Mo D h mi sec ms Hn Hiso HY HMo HD Hh Hmi Hsec Hdig.
    assert (Hts : replace_colon_dot (firstn 19 iso) =
                  Y ++ u "-" ++ Mo ++ u "-" ++ D ++ u "T" ++ h ++ u "-" ++ mi ++ u "-" ++ sec).
    { set (P := Y ++ u "-" ++ Mo ++ u "-" ++ D ++ u "T" ++ h ++ u ":" ++ mi ++ u ":" ++ sec).
      assert (HP : iso = P ++ u "." ++ ms ++ u "Z") by (rewrite Hiso; unfold P; now rewrite <- !app_assoc).
      assert (HL : List.length P = 19).
      { unfold P. rewrite !length_app, HY, HMo, HD, Hh, Hmi, Hsec. reflexivity. }
      rewrite HP, firstn_app, HL, Nat.sub_diag, firstn_O, app_nil_r, <- HL, firstn_all.
      rewrite !forallb_app in Hdig.
      repeat match goal with H : _ && _ = true |- _ => apply andb_prop in H as [? ?] end.
      unfold P. rewrite !replace_colon_dot_app.
      rewrite (replace_colon_dot_digits Y), (replace_colon_dot_digits Mo),
        (replace_colon_dot_digits D), (replace_colon_dot_digits h),
        (replace_colon_dot_digits mi), (replace_colon_dot_digits sec) by assumption.
      reflexivity. }
    assert (Hgen : is_generic_name (file_name file) = true) by exact (generic_names _ Hn).
    split.
    + intros main sub rest Hm Hs Hr Ht. unfold display_name. cbv zeta. rewrite Hgen, Hts.
      rewrite Ht, split_on_app_sep by exact Hm. unfold elem_or. cbn [nth_error].
      destruct Hr as [-> | [r' ->]].
      * rewrite app_nil_r, split_on_notin by exact Hs. cbn [nth_error].
        destruct sub; now rewrite <- !app_assoc.
      * rewrite split_on_app_sep by exact Hs. cbn [nth_error]. destruct sub; now rewrite <- !app_assoc.
    + intros Ht. unfold display_name. cbv zeta. rewrite Hgen, Hts.
      unfold elem_or. rewrite split_on_notin by exact Ht. now rewrite <- !app_assoc.
  - intros iso file H. unfold display_name. cbv zeta. now rewrite H.
  - intros iso t sz. reflexivity.
Qed.

Lemma upload_display_name_witness :
  let file := mkFileIn (u "image.png") (u "image/png") 10 in
  let iso := u "2024-05-06T07:08:09.123Z" in
  display_name iso file = u "screenshot-" ++ u "2024" ++ u "-" ++ u "05" ++ u "-" ++ u "06"
    ++ u "T" ++ u "07" ++ u "-" ++ u "08" ++ u "-" ++ u "09" ++ u "." ++ u "png".
Proof.
  intros file iso.
  assert (Hn : file_name file = u "image.png" \/ file_name file = u "blob" \/ file_name file = [] \/
               starts_with (file_name file) (u "image") = true) by (left; reflexivity).
  assert (Hiso : iso = u "2024" ++ u "-" ++ u "05" ++ u "-" ++ u "06" ++ u "T" ++ u "07" ++ u ":"
                       ++ u "08" ++ u ":" ++ u "09" ++ u "." ++ u "123" ++ u "Z") by reflexivity.
  assert (Hm : ~ In 47%N (u "image")) by notin.
  assert (Hs : ~ In 47%N (u "png")) by notin.
  assert (Ht : file_type file = u "image" ++ 47%N :: u "png" ++ []) by reflexivity.
  exact (proj1 (proj1 upload_display_name iso file _ _ _ _ _ _ (u "123") Hn Hiso
                  eq_refl eq_refl eq_refl eq_refl eq_refl eq_refl eq_refl)
           (u "image") (u "png") [] Hm Hs (or_introl eq_refl) Ht).
Defined.

(** C7. Storage keys stay in the caller's namespace.  For an owner id
    without [/]: the key handed to [upload] is
    [<userId>/<fileId>.<ext>] and its first path segment is [userId]; two
    different owners get different keys whatever the files and ids, and
    one owner gets different keys for two different generated ids (ids
    without [.]); the key handed to [remove] by a delete is
    [<userId>/<last segment of the url>], exactly two segments, the first
    being [userId], whatever the url. *)
Theorem storage_keys_isolated :
  (forall iso fileId err publicUrl file userId, ~ In 47%N userId ->
     fst (uploadSubtaskAttachment iso fileId err publicUrl file userId)
       = userId ++ u "/" ++ fileId ++ u "." ++ pop_last (split_on 46 (display_name iso file)) /\
     hd [] (split_on 47 (fst (uploadSubtaskAttachment iso fileId err publicUrl file userId)))
       = userId) /\
  (forall iso iso' fileId fileId' err err' pub pub' file file' userId userId',
     ~ In 47%N userId -> ~ In 47%N userId' -> userId <> userId' ->
     fst (uploadSubtaskAttachment iso fileId err pub file userId)
       <> fst (uploadSubtaskAttachment iso' fileId' err' pub' file' userId')) /\
  (forall iso iso' fileId fileId' err err' pub pub' file file' userId,
     ~ In 46%N fileId -> ~ In 46%N fileId' -> fileId <> fileId' ->
     fst (uploadSubtaskAttachment iso fileId err pub file userId)
       <> fst (uploadSubtaskAttachment iso' fileId' err' pub' file' userId)) /\
  (forall url userId, ~ In 47%N userId ->
     split_on 47 (delete_path url userId) = [userId; last (split_on 47 url) []]).
Proof.
  split; [| split; [| split]].
  - intros iso fileId err publicUrl file userId Hu. cbn [fst uploadSubtaskAttachment].
    split; [reflexivity |]. unfold storage_path.
    change (u "/" ++ ?x) with (47%N :: x). now rewrite split_on_app_sep.
  - intros iso iso' fileId fileId' err err' pub pub' file file' userId userId' Hu Hu' Hne E.
    cbn [fst uploadSubtaskAttachment] in E. unfold storage_path in E.
    change (u "/" ++ ?x) with (47%N :: x) in E.
    apply (app_sep_inj 47%N userId userId') in E as [E _]; auto.
  - intros iso iso' fileId fileId' err err' pub pub' file file' userId Hf Hf' Hne E.
    cbn [fst uploadSubtaskAttachment] in E. unfold storage_path in E.
    apply app_inv_head in E. cbn [u list_ascii_of_string map N_of_ascii app] in E.
    injection E as E.
    change (u "." ++ ?x) with (46%N :: x) in E.
    apply (app_sep_inj 46%N fileId fileId') in E as [E _]; auto.
  - intros url userId Hu. unfold delete_path. change (u "/" ++ ?x) with (47%N :: x).
    rewrite split_on_app_sep by exact Hu.
    rewrite split_on_notin by exact (split_on_pieces _ _ _ (last_In_split 47 url)).
    reflexivity.
Qed.

Lemma storage_keys_isolated_witness :
  fst (uploadSubtaskAttachment (u "t") (u "id1") false (fun k => k) (mkFileIn (u "a.pdf") (u "application/pdf") 3) (u "alice"))
    <> fst (uploadSubtaskAttachment (u "t") (u "id1") false (fun k => k) (mkFileIn (u "a.pdf") (u "application/pdf") 3) (u "bob")) /\
  split_on 47 (delete_path (u "https://h/o/../x.png") (u "alice")) = [u "alice"; u "x.png"].
Proof.
  assert (Ha : ~ In 47%N (u "alice")) by notin.
  assert (Hb : ~ In 47%N (u "bob")) by notin.
  assert (Hab : u "alice" <> u "bob") by discriminate.
  split.
  - exact (proj1 (proj2 storage_keys_isolated) _ _ _ _ _ _ _ _ _ _ _ _ Ha Hb Hab).
  - exact (proj2 (proj2 (proj2 storage_keys_isolated)) (u "https://h/o/../x.png") _ Ha).
Defined.

(** C8. The cleanup pass, for stores with distinct keys.  Each store is
    filtered entry by entry: an entry goes exactly when its key is
    auth-related for that store and the loop body drops it, so an entry
    never affects the fate of another and the pass always completes.
    An entry whose value is not empty and does not parse (or parses to
    [null]) is removed from [sessionStorage] whenever its key is
    auth-related, but from [localStorage] only when its key contains
    [supabase.auth.token]; an entry with an empty value is kept in both. *)
Theorem cleanup_corrupt_entries (parse : ustr -> option json) now (ls ss : store) :
  NoDup (map fst ls) -> NoDup (map fst ss) ->
  fst (cleanupExpiredSessions parse now ls ss)
    = filter (fun kv => negb (local_auth_key (fst kv) &&
                              drop_entry parse local_on_corrupt now (fst kv) (snd kv))) ls /\
  snd (cleanupExpiredSessions parse now ls ss)
    = filter (fun kv => negb (session_auth_key (fst kv) &&
                              drop_entry parse session_on_corrupt now (fst kv) (snd kv))) ss /\
  (forall k v, In (k, v) ls -> v <> [] -> (parse v = None \/ parse v = Some JNull) ->
     local_auth_key k = true ->
     (In (k, v) (fst (cleanupExpiredSessions parse now ls ss))
      <-> includes k (u "supabase.auth.token") = false)) /\
  (forall k v, In (k, v) ss -> v <> [] -> (parse v = None \/ parse v = Some JNull) ->
     session_auth_key k = true -> ~ In (k, v) (snd (cleanupExpiredSessions parse now ls ss))) /\
  (forall k, In (k, []) ls -> In (k, []) (fst (cleanupExpiredSessions parse now ls ss))) /\
  (forall k, In (k, []) ss -> In (k, []) (snd (cleanupExpiredSessions parse now ls ss))).
Proof.
  intros Hl Hs. unfold cleanupExpiredSessions. cbn [fst snd].
  rewrite !clean_store_filter by assumption.
  split; [reflexivity | split; [reflexivity |]].
  assert (Hc : forall oc k v, v <> [] -> (parse v = None \/ parse v = Some JNull) ->
                 drop_entry parse oc now k v = oc k).
  { intros oc k v Hv Hp. unfold drop_entry. destruct v as [|c v]; [congruence |].
    destruct Hp as [-> | ->]; reflexivity. }
  split; [| split; [| split]].
  - intros k v Hi Hv Hp Ha. rewrite filter_In. cbn [fst snd]. rewrite Ha, (Hc _ _ _ Hv Hp).
    unfold local_on_corrupt. destruct (includes k _); cbn [negb andb]; split.
    + intros [_ H]. discriminate.
    + intros H. discriminate.
    + intros _. reflexivity.
    + intros _. split; [exact Hi | reflexivity].
  - intros k v Hi Hv Hp Ha. rewrite filter_In. cbn [fst snd]. rewrite Ha, (Hc _ _ _ Hv Hp).
    intros [_ H]. discriminate.
  - intros k Hi. apply filter_In. split; [exact Hi |]. cbn [snd]. now rewrite andb_false_r.
  - intros k Hi. apply filter_In. split; [exact Hi |]. cbn [snd]. now rewrite andb_false_r.
Qed.

Lemma cleanup_corrupt_entries_witness :
  let parse := fun _ : ustr => @None json in
  let ls := [(u "supabase.auth.token", u "{bad"); (u "sb-x-auth-token", u "{bad")] in
  let ss := [(u "sb-x-auth-token", u "{bad"); (u "session-id", [])] in
  fst (cleanupExpiredSessions parse 0 ls ss) = [(u "sb-x-auth-token", u "{bad")] /\
  snd (cleanupExpiredSessions parse 0 ls ss) = [(u "session-id", [])].
Proof.
  intros parse ls ss.
  assert (Hl : NoDup (map fst ls))
    by (repeat constructor; vm_compute; intros Hx; repeat destruct Hx as [Hx | Hx]; try discriminate Hx; contradiction).
  assert (Hs : NoDup (map fst ss))
    by (repeat constructor; vm_compute; intros Hx; repeat destruct Hx as [Hx | Hx]; try discriminate Hx; contradiction).
  destruct (cleanup_corrupt_entries parse 0 ls ss Hl Hs) as [E1 [E2 _]].
  rewrite E1, E2. split; reflexivity.
Defined.

(** The only value parsed below is [{bad], which [JSON.parse] rejects. *)
Lemma cleanup_corrupt_entries_counterexample :
  let parse := fun _ : ustr => @None json in
  fst (cleanupExpiredSessions parse 0 [(u "sb-abc-auth-token", u "{bad")] [])
    = [(u "sb-abc-auth-token", u "{bad")] /\
  local_auth_key (u "sb-abc-auth-token") = true /\
  snd (cleanupExpiredSessions parse 0 [] [(u "auth", [])]) = [(u "auth", [])].
Proof. vm_compute. repeat split. Qed.

(** * Further properties of the code *)

(** [extractFileUrls] finds nothing in a content that does not contain
    [https://]: both of its patterns start with that literal. *)
Theorem extract_without_https (c : ustr) :
  includes c lit_https = false -> extractFileUrls c = [].
Proof.
  intros Hc. apply empty_no_member. intros v Hv.
  apply (not_occurs_includes _ _ Hc).
  destruct (extract_url_cases c v Hv) as [(p & u0 & e & -> & _) | (p & u0 & -> & _)].
  - apply occurs_app_l. exists lit_open, u0. reflexivity.
  - exists p, u0. reflexivity.
Qed.

Lemma extract_without_https_witness :
  let c := u "see ![a](http://x/subtask-attachments/a.png)" in
  includes c lit_https = false /\ extractFileUrls c = [].
Proof.
  intros c. assert (H : includes c lit_https = false) by (vm_compute; reflexivity).
  exact (conj H (extract_without_https c H)).
Defined.

(** Every url returned by [extractFileUrls] is [https://] followed by a
    non-empty run of non-whitespace units, and it occurs verbatim in the
    content it was extracted from. *)
Theorem extract_url_form (c v : ustr) :
  In v (extractFileUrls c) ->
  occurs v c /\ exists w, v = lit_https ++ w /\ w <> [] /\ forallb not_ws w = true.
Proof.
  intros Hv. destruct (extract_url_cases c v Hv)
    as [(p & u0 & e & -> & Hr & -> & E) | (p & u0 & -> & -> & Ex)].
  - split.
    + exists (p ++ lit_open), (skipn (run not_ws u0) u0).
      rewrite <- !app_assoc, firstn_skipn. reflexivity.
    + exists (firstn (run not_ws u0) u0). split; [reflexivity | split; [| apply firstn_run]].
      apply firstn_nonempty; [lia | apply run_le].
  - split.
    + exists p, (skipn (run not_ws_paren u0) u0).
      rewrite <- !app_assoc, firstn_skipn. reflexivity.
    + exists (firstn (run not_ws_paren u0) u0). split; [reflexivity | split].
      * apply firstn_nonempty; [now apply seg_at_run | apply run_le].
      * apply not_ws_paren_not_ws, firstn_run.
Qed.

Lemma extract_url_form_witness :
  let c := u "x ![f](https://h/subtask-attachments/f.png) y" in
  let v := u "https://h/subtask-attachments/f.png" in
  In v (extractFileUrls c) /\
  (occurs v c /\ exists w, v = lit_https ++ w /\ w <> [] /\ forallb not_ws w = true).
Proof.
  intros c v. assert (H : In v (extractFileUrls c)) by (vm_compute; left; reflexivity).
  exact (conj H (extract_url_form c v H)).
Defined.

(** A url returned by [extractFileUrls] that [isSubtaskAttachment] rejects
    can only come from an HTML-comment sentinel: the content contains it
    as [<!-- attachment: v -->]. The bare-url pattern only yields
    attachment urls. *)
Theorem extract_non_attachment_from_sentinel (c v : ustr) :
  In v (extractFileUrls c) -> isSubtaskAttachment v = false ->
  exists p q, c = p ++ lit_open ++ v ++ lit_close ++ q.
Proof.
  intros Hv Ha. destruct (extract_url_cases c v Hv)
    as [(p & u0 & e & -> & Hr & -> & E) | (p & u0 & -> & -> & Ex)].
  - apply strip_prefix_some in E. exists p, e.
    rewrite <- E, <- (app_assoc lit_https), firstn_skipn. reflexivity.
  - exfalso. apply (not_occurs_includes _ _ Ha). apply occurs_app_l. now apply seg_at_occurs.
Qed.

Lemma extract_non_attachment_from_sentinel_witness :
  let c := u "<!-- attachment: https://cdn/x.png -->" in
  let v := u "https://cdn/x.png" in
  In v (extractFileUrls c) /\ isSubtaskAttachment v = false /\
  exists p q, c = p ++ lit_open ++ v ++ lit_close ++ q.
Proof.
  intros c v. assert (H1 : In v (extractFileUrls c)) by (vm_compute; left; reflexivity).
  assert (H2 : isSubtaskAttachment v = false) by (vm_compute; reflexivity).
  exact (conj H1 (conj H2 (extract_non_attachment_from_sentinel c v H1 H2))).
Defined.

(** Deleting the attachment an upload returned targets the storage key the
    upload wrote, when the public url of a key is [base/key] and neither the
    generated file id nor the file's name contains [/]. *)
Theorem upload_then_delete iso fileId err publicUrl base file userId f :
  (forall key, publicUrl key = base ++ u "/" ++ key) ->
  ~ In 47%N fileId -> ~ In 47%N (file_name file) ->
  snd (uploadSubtaskAttachment iso fileId err publicUrl file userId) = Some f ->
  delete_path (url f) userId = fst (uploadSubtaskAttachment iso fileId err publicUrl file userId).
Proof.
  intros Hp Hf Hn E. cbn [uploadSubtaskAttachment fst snd] in *. destruct err; [discriminate |].
  injection E as <-. cbn [url]. rewrite Hp. unfold delete_path, storage_path.
  rewrite last_segment_public_url; [reflexivity |].
  apply notin_key; [discriminate | exact Hf |].
  apply ext_notin; [exact Hn | now left | exact png_no_slash].
Qed.

Lemma upload_then_delete_witness :
  let publicUrl := fun key => u "https://p.co/storage/v1/object/public/subtask-attachments" ++ u "/" ++ key in
  let file := mkFileIn (u "notes.txt") (u "text/plain") 12 in
  (forall key, publicUrl key = u "https://p.co/storage/v1/object/public/subtask-attachments" ++ u "/" ++ key) /\
  ~ In 47%N (u "f1") /\ ~ In 47%N (file_name file) /\
  exists f, snd (uploadSubtaskAttachment (u "2024-01-01T00:00:00.000Z") (u "f1") false publicUrl file (u "uid")) = Some f /\
  delete_path (url f) (u "uid") = fst (uploadSubtaskAttachment (u "2024-01-01T00:00:00.000Z") (u "f1") false publicUrl file (u "uid")).
Proof.
  intros publicUrl file.
  assert (H1 : forall key, publicUrl key = u "https://p.co/storage/v1/object/public/subtask-attachments" ++ u "/" ++ key)
    by reflexivity.
  assert (H2 : ~ In 47%N (u "f1")) by (vm_compute; intros H; repeat destruct H as [H | H]; try discriminate H; contradiction).
  assert (H3 : ~ In 47%N (file_name file)) by (vm_compute; intros H; repeat destruct H as [H | H]; try discriminate H; contradiction).
  split; [exact H1 | split; [exact H2 | split; [exact H3 |]]].
  eexists. split; [reflexivity |].
  apply (upload_then_delete _ _ _ _ _ _ _ _ H1 H2 H3). reflexivity.
Defined.

(** The name [existingFileObjects] shows for a url is never empty and
    contains no [/] and no [?]; for a url ending in [/key], optionally followed
    by a query [?...] without [/], it is [key]. The object keeps the url and
    has size 0. *)
Theorem existing_object_name (toLowerCase : ustr -> ustr) (v : ustr) :
  let f := existing_file_object toLowerCase v in
  url f = v /\ size f = 0%N /\
  name f <> [] /\ ~ In 47%N (name f) /\ ~ In 63%N (name f) /\
  (forall p key q, v = p ++ u "/" ++ key ++ q -> key <> [] -> ~ In 47%N key -> ~ In 63%N key ->
     (q = [] \/ exists r, q = 63%N :: r /\ ~ In 47%N r) -> name f = key).
Proof.
  cbv zeta. unfold existing_file_object. cbv zeta. cbn [url size name].
  set (w := last (split_on 47 v) []).
  assert (Hw : ~ In 47%N w) by exact (split_on_pieces _ _ _ (last_In_split 47 v)).
  split; [reflexivity | split; [reflexivity | split; [| split; [| split]]]].
  - unfold elem_or. destruct (nth_error _ 0) as [[|c s]|]; discriminate.
  - apply elem_or_notin.
    + intros w' Hw' Hc. apply Hw. exact (split_on_sub _ _ _ _ Hw' Hc).
    + vm_compute. intros H. repeat destruct H as [H | H]; try discriminate H; contradiction.
  - apply elem_or_notin; [exact (fun w' Hw' => split_on_pieces _ _ _ Hw') |].
    vm_compute. intros H. repeat destruct H as [H | H]; try discriminate H; contradiction.
  - intros p key q -> Hk Hk1 Hk2 Hq. subst w.
    change (u "/" ++ ?x) with (47%N :: x).
    destruct Hq as [-> | [r [-> Hr]]].
    + rewrite app_nil_r, last_split_on_app_sep, (split_on_notin 47 key Hk1).
      cbn [last]. rewrite (split_on_notin 63 key Hk2). apply elem_or_single, Hk.
    + rewrite last_split_on_app_sep, (split_on_notin 47 (key ++ 63%N :: r)).
      * cbn [last]. rewrite (split_on_app_sep 63 key r Hk2).
        destruct key as [|c s]; [contradiction | reflexivity].
      * intros Hc. apply in_app_iff in Hc as [Hc | [Hc | Hc]]; [exact (Hk1 Hc) | discriminate Hc | exact (Hr Hc)].
Qed.

(** Once saved, an uploaded attachment is shown by [existingFileObjects]
    under its storage file name [fileId.ext], not under the name it was
    uploaded with, when the public url of a key is [base/key] and the file
    id, the file's name and its type contain neither [/] nor [?]. *)
Theorem uploaded_attachment_shown_name (toLowerCase : ustr -> ustr) iso fileId err publicUrl base file userId f :
  (forall key, publicUrl key = base ++ u "/" ++ key) ->
  ~ In 47%N fileId -> ~ In 63%N fileId ->
  ~ In 47%N (file_name file) -> ~ In 63%N (file_name file) -> ~ In 63%N (file_type file) ->
  snd (uploadSubtaskAttachment iso fileId err publicUrl file userId) = Some f ->
  name (existing_file_object toLowerCase (url f)) = fileId ++ u "." ++ pop_last (split_on 46 (name f)).
Proof.
  intros Hp Hf1 Hf2 Hn1 Hn2 Ht E. cbn [uploadSubtaskAttachment fst snd] in *. destruct err; [discriminate |].
  injection E as <-. cbn [url name]. rewrite Hp. unfold existing_file_object. cbv zeta. cbn [name].
  unfold storage_path.
  assert (H47 : ~ In 47%N (fileId ++ u "." ++ pop_last (split_on 46 (display_name iso file)))).
  { apply notin_key; [discriminate | exact Hf1 |]. apply ext_notin; [exact Hn1 | now left | exact png_no_slash]. }
  assert (H63 : ~ In 63%N (fileId ++ u "." ++ pop_last (split_on 46 (display_name iso file)))).
  { apply notin_key; [discriminate | exact Hf2 |]. apply ext_notin; [exact Hn2 | now right | exact png_no_query]. }
  rewrite last_segment_public_url by exact H47. rewrite split_on_notin by exact H63.
  apply elem_or_single. change (u "." ++ ?x) with (46%N :: x). destruct fileId; discriminate.
Qed.

Lemma uploaded_attachment_shown_name_witness :
  let publicUrl := fun key => u "https://p.co/subtask-attachments" ++ u "/" ++ key in
  let file := mkFileIn (u "Holiday photo.JPG") (u "image/jpeg") 2048 in
  (forall key, publicUrl key = u "https://p.co/subtask-attachments" ++ u "/" ++ key) /\
  exists f, snd (uploadSubtaskAttachment (u "2024-01-01T00:00:00.000Z") (u "f1") false publicUrl file (u "uid")) = Some f /\
  name f = u "Holiday photo.JPG" /\
  name (existing_file_object (fun s => s) (url f)) = u "f1.JPG".
Proof.
  intros publicUrl file.
  assert (H1 : forall key, publicUrl key = u "https://p.co/subtask-attachments" ++ u "/" ++ key) by reflexivity.
  assert (N1 : forall c w, c = 47%N \/ c = 63%N -> w = u "f1" \/ w = file_name file -> ~ In c w).
  { intros c w Hc Hw. destruct Hc as [-> | ->]; destruct Hw as [-> | ->]; vm_compute;
      intros H; repeat destruct H as [H | H]; try discriminate H; contradiction. }
  assert (N2 : ~ In 63%N (file_type file))
    by (vm_compute; intros H; repeat destruct H as [H | H]; try discriminate H; contradiction).
  split; [exact H1 |]. eexists. split; [reflexivity |]. split; [reflexivity |].
  rewrite (uploaded_attachment_shown_name (fun s => s) (u "2024-01-01T00:00:00.000Z") (u "f1") false
             publicUrl (u "https://p.co/subtask-attachments") file (u "uid") _ H1); auto.
Defined.

(** Removing an attached file drops every attachment with its url before
    the save: the saved content of an [EnhancedSubtaskItem] (and of a
    [SubtaskForm]) yields the urls of the original content followed by the
    remaining attachment urls, deduplicated, and the removed url is not
    among them unless the original content already carried it. *)
Theorem remove_then_save (st : EditState) (fs : FormState) (g : UploadedFile) :
  (trim (editName st) <> [] -> Forall wf_file (attachedFiles st) ->
   exists c', snd (handleSave (handleRemoveFile st g)) = Some (editName st, c') /\
     extractFileUrls c' = dedup (extractFileUrls (editContent st)
                                 ++ filter (fun v => negb (ustr_eqb v (url g))) (map url (attachedFiles st))) /\
     (~ In (url g) (extractFileUrls (editContent st)) -> ~ In (url g) (extractFileUrls c'))) /\
  (trim (formName fs) <> [] -> Forall wf_file (formFiles fs) ->
   exists c', snd (handleSubmit (form_handleRemoveFile fs g)) = Some (formName fs, c') /\
     extractFileUrls c' = dedup (extractFileUrls (formContent fs)
                                 ++ filter (fun v => negb (ustr_eqb v (url g))) (map url (formFiles fs))) /\
     (~ In (url g) (extractFileUrls (formContent fs)) -> ~ In (url g) (extractFileUrls c'))).
Proof.
  split.
  - intros Hn Hw. unfold handleSave, handleRemoveFile. cbn [editName editContent attachedFiles].
    destruct (trim (editName st)) eqn:T; [contradiction |]. eexists. split; [reflexivity |].
    exact (saved_without _ _ g Hw).
  - intros Hn Hw. unfold handleSubmit, form_handleRemoveFile. cbn [formName formContent formFiles].
    destruct (trim (formName fs)) eqn:T; [contradiction |]. eexists. split; [reflexivity |].
    exact (saved_without _ _ g Hw).
Qed.

Lemma remove_then_save_witness :
  let st := mkEdit true (u "task") [] [file_a U1; file_b U2] in
  let fs := mkForm (u "task") [] [file_a U1; file_b U2] in
  (trim (editName st) <> [] /\ Forall wf_file (attachedFiles st) /\
   exists c', snd (handleSave (handleRemoveFile st (file_a U1))) = Some (editName st, c') /\
     extractFileUrls c' = [U2]) /\
  (trim (formName fs) <> [] /\ Forall wf_file (formFiles fs) /\
   exists c', snd (handleSubmit (form_handleRemoveFile fs (file_a U1))) = Some (formName fs, c') /\
     extractFileUrls c' = [U2]).
Proof.
  intros st fs.
  assert (Hn : trim (u "task") <> []) by discriminate.
  assert (Hw : Forall wf_file [file_a U1; file_b U2])
    by (repeat constructor; [apply wf_file_a, wf_U1 | apply wf_file_b, wf_U2]).
  destruct (remove_then_save st fs (file_a U1)) as [H1 H2].
  destruct (H1 Hn Hw) as [c1 [E1 [X1 _]]]. destruct (H2 Hn Hw) as [c2 [E2 [X2 _]]].
  split; (split; [exact Hn | split; [exact Hw |]]).
  - exists c1. split; [exact E1 |]. rewrite X1. vm_compute. reflexivity.
  - exists c2. split; [exact E2 |]. rewrite X2. vm_compute. reflexivity.
Defined.

(** [handleCancel] discards the files uploaded in the cancelled session: a
    later session on the same subtask saves exactly what it would have
    saved had the cancelled session never happened. *)
Theorem cancel_discards_uploads (st : EditState) (n c : ustr) (R1 R2 : list UploadedFile) :
  handleSave (fold_left handleFileUploaded R2
                (handleEdit (handleCancel (fold_left handleFileUploaded R1 (handleEdit st n c)) n c) n c))
  = handleSave (fold_left handleFileUploaded R2 (handleEdit (mkEdit false [] [] []) n c)) /\
  snd (handleSave (handleEdit (handleCancel (fold_left handleFileUploaded R1 (handleEdit st n c)) n c) n c))
  = match trim n with [] => None | _ => Some (n, c) end.
Proof.
  rewrite !fold_handleFileUploaded. unfold handleCancel, handleEdit. cbn [isEditing editName editContent attachedFiles].
  split; [reflexivity |]. unfold handleSave. cbn [editName editContent attachedFiles content_with_files].
  destruct (trim n); reflexivity.
Qed.

(** [handleCopyDescription] on a non-blank description writes its first
    line: a prefix without [\n], followed in the description by [\n] (not
    preceded by [\r]), by [\r\n], or by nothing. The line written is empty
    exactly when the description starts with [\n] or [\r\n]. A blank
    description writes nothing. *)
Theorem copy_first_line (c : ustr) (write_ok : bool) :
  (trim c = [] -> handleCopyDescription (Some c) write_ok = (None, NoDescription)) /\
  (trim c <> [] ->
   exists t, fst (handleCopyDescription (Some c) write_ok) = Some t /\ ~ In 10%N t /\
     (c = t \/
      (exists r, c = t ++ 10%N :: r /\ ~ (exists x, t = x ++ [13%N])) \/
      (exists r, c = t ++ 13%N :: 10%N :: r)) /\
     (t = [] <-> exists r, c = 10%N :: r \/ c = 13%N :: 10%N :: r)).
Proof.
  split.
  - intros H. unfold handleCopyDescription. now rewrite H.
  - intros H. exists (first_line c). unfold handleCopyDescription.
    destruct (trim c) eqn:T; [contradiction |]. split; [reflexivity |].
    destruct (first_line_shape c) as [S1 S2]. split; [exact S1 | split; [exact S2 |]].
    apply first_line_empty, trim_nonempty. now rewrite T.
Qed.

Lemma copy_first_line_witness :
  let c := u "Buy milk" ++ [13%N; 10%N] ++ u "and eggs" in
  trim c <> [] /\ exists t, fst (handleCopyDescription (Some c) true) = Some t /\ ~ In 10%N t /\
    exists r, c = t ++ 13%N :: 10%N :: r.
Proof.
  intros c. assert (H : trim c <> []) by (vm_compute; discriminate).
  split; [exact H |].
  destruct (proj2 (copy_first_line c true) H) as [t [E [Hn _]]]. exists t.
  split; [exact E | split; [exact Hn |]]. exists (u "and eggs").
  revert E. vm_compute. intros E. injection E as <-. reflexivity.
Defined.

(** Files reach the attachment list of an editor only through successful
    uploads of files no larger than [maxSize] MB: a run of selections only
    appends, and each appended file has the selected file's size, at most
    [maxSize * 1024 * 1024]. A file of exactly that size is accepted; with
    no signed-in user nothing is written to storage. *)
Theorem selected_files_within_limit (maxSize : N) (publicUrl : ustr -> ustr) (evs : list selection) (st : EditState) :
  (Forall (fun f => (size f <= maxSize * 1024 * 1024)%N) (attachedFiles st) ->
   exists R, fold_left (select_file maxSize publicUrl) evs st
             = mkEdit (isEditing st) (editName st) (editContent st) (attachedFiles st ++ R) /\
     Forall (fun f => (size f <= maxSize * 1024 * 1024)%N) (attachedFiles st ++ R)) /\
  (forall iso fileId err file,
     (snd (handleFileSelect maxSize iso fileId err publicUrl None file) <> FileUploadedToast /\
      fst (handleFileSelect maxSize iso fileId err publicUrl None file) = (None, None))) /\
  (forall iso fileId uid file, file_size file = (maxSize * 1024 * 1024)%N ->
     snd (handleFileSelect maxSize iso fileId false publicUrl (Some uid) file) = FileUploadedToast).
Proof.
  split; [| split].
  - intros H0. revert st H0. induction evs as [|ev evs IH]; intros st H0.
    + exists []. rewrite app_nil_r. split; [now destruct st | exact H0].
    + cbn [fold_left]. destruct (select_file_step maxSize publicUrl st ev) as [R1 [E1 F1]].
      rewrite E1.
      assert (H1 : Forall (fun f => (size f <= maxSize * 1024 * 1024)%N) (attachedFiles st ++ R1))
        by (apply Forall_app; split; assumption).
      destruct (IH (mkEdit (isEditing st) (editName st) (editContent st) (attachedFiles st ++ R1)) H1)
        as [R2 [E2 F2]].
      cbn [isEditing editName editContent attachedFiles] in E2, F2.
      exists (R1 ++ R2). rewrite <- app_assoc in E2, F2. split; [exact E2 | exact F2].
  - intros iso fileId err file. unfold handleFileSelect.
    destruct (N.ltb _ _); split; (discriminate || reflexivity).
  - intros iso fileId uid file E. unfold handleFileSelect. rewrite E, N.ltb_irrefl. reflexivity.
Qed.

Lemma selected_files_within_limit_witness :
  let pub := fun key => u "https://p.co/subtask-attachments/" ++ key in
  let ev1 := mkSelection [] (u "f1") false (Some (u "uid")) (mkFileIn (u "a.pdf") (u "application/pdf") 10485760) in
  let ev2 := mkSelection [] (u "f2") false (Some (u "uid")) (mkFileIn (u "b.pdf") (u "application/pdf") 10485761) in
  let st := mkEdit true (u "task") [] [] in
  Forall (fun f => (size f <= 10 * 1024 * 1024)%N) (attachedFiles st) /\
  List.length (attachedFiles (fold_left (select_file 10 pub) [ev1; ev2] st)) = 1 /\
  Forall (fun f => (size f <= 10 * 1024 * 1024)%N) (attachedFiles (fold_left (select_file 10 pub) [ev1; ev2] st)).
Proof.
  intros pub ev1 ev2 st. assert (H0 : Forall (fun f => (size f <= 10 * 1024 * 1024)%N) (attachedFiles st)) by constructor.
  destruct (proj1 (selected_files_within_limit 10 pub [ev1; ev2] st) H0) as [R [E F]].
  split; [exact H0 | split; [vm_compute; reflexivity |]]. rewrite E. exact F.
Defined.

(** The session checks sign out at most once per three failed validations:
    starting below [maxRetries], three times the number of sign-outs plus
    the retry counter grows by at most the number of failed validations,
    and by exactly that number when every validation fails. The number of
    sign-outs never decreases. *)
Theorem signouts_per_failures (decode : option ustr -> option payload) (s : session)
    (ticks : list (Z * auth_response)) (st : SessionState) :
  retryCount st < maxRetries ->
  let st' := run_checks decode (Some s) ticks st in
  let fails := List.length (filter (fun i => negb (validation_outcome decode (access_token s) (fst i) (snd i))) ticks) in
  signouts st <= signouts st' /\
  3 * signouts st' + retryCount st' <= 3 * signouts st + retryCount st + fails /\
  (fails = List.length ticks -> 3 * signouts st' + retryCount st' = 3 * signouts st + retryCount st + fails).
Proof.
  cbv zeta. revert st. induction ticks as [|i ticks IH]; intros st Hr.
  - cbn. lia.
  - rewrite run_checks_cons. cbn [filter List.length].
    pose proof (check_step decode s (fst i) (snd i) st) as Hs. cbv zeta in Hs.
    pose proof (check_bound decode (Some s) (fst i) (snd i) st Hr) as Hb.
    destruct (IH _ Hb) as [I1 [I2 I3]].
    pose proof (filter_length_le (fun i => negb (validation_outcome decode (access_token s) (fst i) (snd i))) ticks).
    destruct (validation_outcome decode (access_token s) (fst i) (snd i)); cbn [negb List.length].
    + destruct Hs as [H1 H2]. rewrite H1, H2 in *. split; [lia | split; [lia | intros E; lia]].
    + unfold maxRetries in *. destruct (Nat.leb 3 (S (retryCount st))) eqn:L.
      * apply Nat.leb_le in L. destruct Hs as [H1 H2]. rewrite H1, H2 in *.
        split; [lia | split; [lia | intros E; specialize (I3 ltac:(lia)); lia]].
      * destruct Hs as [H1 H2]. rewrite H1, H2 in *.
        split; [lia | split; [lia | intros E; specialize (I3 ltac:(lia)); lia]].
Qed.

Lemma signouts_per_failures_witness :
  let decode := fun _ : option ustr => Some (mkPayload None) in
  let s := mkSession (Some (u "h.p.s")) in
  let ticks := [(0%Z, NoUser); (0%Z, AuthError); (0%Z, NoUser); (0%Z, UserFound); (0%Z, NoUser)] in
  retryCount (mkSS 0 []) < maxRetries /\
  3 * signouts (run_checks decode (Some s) ticks (mkSS 0 [])) + retryCount (run_checks decode (Some s) ticks (mkSS 0 []))
    <= 3 * signouts (mkSS 0 []) + retryCount (mkSS 0 [])
       + List.length (filter (fun i => negb (validation_outcome decode (access_token s) (fst i) (snd i))) ticks).
Proof.
  intros decode s ticks. assert (H : retryCount (mkSS 0 []) < maxRetries) by (cbn; unfold maxRetries; lia).
  split; [exact H |]. exact (proj1 (proj2 (signouts_per_failures decode s ticks (mkSS 0 []) H))).
Defined.

(** A cleanup pass only deletes entries: each store afterwards is the
    store filtered, so no entry is added, changed or reordered, and every
    entry whose key does not look auth-related survives. This holds for any
    store contents, duplicate keys included. *)
Theorem cleanup_only_removes (parse : ustr -> option json) (now_ms : Z) (ls ss : store) :
  (exists keep, fst (cleanupExpiredSessions parse now_ms ls ss) = filter keep ls /\
     forall kv, local_auth_key (fst kv) = false -> keep kv = true) /\
  (exists keep, snd (cleanupExpiredSessions parse now_ms ls ss) = filter keep ss /\
     forall kv, session_auth_key (fst kv) = false -> keep kv = true).
Proof. split; apply clean_store_is_filter. Qed.

(** Cleaning at [t1] and then again at a later [t2] leaves the stores as a
    single pass at [t2] does: whatever a pass removes, a later one would
    remove too. In particular a second pass at the same time changes
    nothing. *)
Theorem cleanup_later_pass (parse : ustr -> option json) (t1 t2 : Z) (ls ss : store) :
  NoDup (map fst ls) -> NoDup (map fst ss) -> (t1 <= t2)%Z ->
  cleanupExpiredSessions parse t2 (fst (cleanupExpiredSessions parse t1 ls ss))
                                  (snd (cleanupExpiredSessions parse t1 ls ss))
  = cleanupExpiredSessions parse t2 ls ss.
Proof.
  intros Hl Hs Ht. unfold cleanupExpiredSessions. cbn [fst snd].
  rewrite !(clean_store_filter parse _ _ _ ls), !(clean_store_filter parse _ _ _ ss) by assumption.
  rewrite (clean_store_filter parse _ _ _ (filter _ ls)) by (apply NoDup_map_filter, Hl).
  rewrite (clean_store_filter parse _ _ _ (filter _ ss)) by (apply NoDup_map_filter, Hs).
  rewrite !filter_filter_and. f_equal; apply filter_ext; intros [k v]; cbn [fst snd].
  - destruct (local_auth_key k); cbn [andb negb]; [| reflexivity].
    destruct (drop_entry parse local_on_corrupt t1 k v) eqn:D; [| reflexivity].
    now rewrite (drop_entry_later _ _ _ _ _ _ Ht D).
  - destruct (session_auth_key k); cbn [andb negb]; [| reflexivity].
    destruct (drop_entry parse session_on_corrupt t1 k v) eqn:D; [| reflexivity].
    now rewrite (drop_entry_later _ _ _ _ _ _ Ht D).
Qed.

Lemma cleanup_later_pass_witness :
  let parse := fun v : ustr => if ustr_eqb v (u "{old}") then Some (JObj (Some 100%Z) None)
                              else if ustr_eqb v (u "{new}") then Some (JObj (Some 5000%Z) None) else None in
  let ls := [(u "sb-auth-token", u "{old}"); (u "theme", u "dark")] in
  let ss := [(u "sb-session", u "{new}")] in
  NoDup (map fst ls) /\ NoDup (map fst ss) /\ (1000000 <= 9000000)%Z /\
  cleanupExpiredSessions parse 9000000 (fst (cleanupExpiredSessions parse 1000000 ls ss))
                                      (snd (cleanupExpiredSessions parse 1000000 ls ss))
  = ([(u "theme", u "dark")], []).
Proof.
  intros parse ls ss.
  assert (Hl : NoDup (map fst ls))
    by (repeat constructor; vm_compute; intros Hx; repeat destruct Hx as [Hx | Hx]; try discriminate Hx; contradiction).
  assert (Hs : NoDup (map fst ss)) by (repeat constructor; intros []).
  assert (Ht : (1000000 <= 9000000)%Z) by lia.
  split; [exact Hl | split; [exact Hs | split; [exact Ht |]]].
  rewrite (cleanup_later_pass parse _ _ ls ss Hl Hs Ht). vm_compute. reflexivity.
Defined.



(** The PDF's file name is the task name with every unit other than an
    ASCII letter or digit replaced by [_], cut to its first 50 units, then
    [_], the date and [.pdf]: the stem has [min(length, 50)] units, all
    letters, digits or [_]; names made of at most 50 letters and digits are
    kept as they are. *)
Theorem pdf_file_name_form (task_name date : ustr) :
  exists stem, pdf_file_name task_name date = stem ++ u "_" ++ date ++ u ".pdf" /\
    List.length stem = Nat.min 50 (List.length task_name) /\
    forallb (fun c => ascii_alnum c || N.eqb c 95) stem = true /\
    (forall i c, i < 50 -> nth_error task_name i = Some c ->
       nth_error stem i = Some (if ascii_alnum c then c else 95%N)) /\
    (forallb ascii_alnum task_name = true -> List.length task_name <= 50 -> stem = task_name).
Proof.
  exists (firstn 50 (map (fun c => if ascii_alnum c then c else 95%N) task_name)).
  split; [reflexivity | split; [apply firstn_map_length | split; [| split]]].
  - remember 50 as k. clear Heqk. revert k. induction task_name as [|c t IH]; intros [|k]; try reflexivity.
    cbn [map firstn forallb]. rewrite IH, andb_true_r.
    destruct (ascii_alnum c) eqn:A; [now rewrite A | now rewrite N.eqb_refl, orb_true_r].
  - intros i c Hi Hc. rewrite nth_error_firstn. apply Nat.ltb_lt in Hi. rewrite Hi.
    rewrite nth_error_map, Hc. reflexivity.
  - intros Ha Hl. rewrite firstn_all2 by (rewrite length_map; exact Hl).
    induction task_name as [|c t IH]; [reflexivity |]. cbn [forallb] in Ha.
    apply andb_true_iff in Ha as [A1 A2]. cbn [map]. rewrite A1, IH; [reflexivity | exact A2 |].
    cbn [List.length] in Hl. lia.
Qed.

(** However the text is split into lines, the page layout of
    [exportTaskToPdf] (a run of [addText], [addLine] and [yPosition += 3]
    from [yPosition = 20] with non-negative font sizes, then the footer)
    draws every body text line and rule at a height between the top margin
    20 and the page-break bound 280, and every line handed to [addText]
    exactly once, in order, across page breaks; the footer comes last, on
    the last page, at [pageHeight - 15] (282 on an A4 page, below the
    bound). *)
Theorem layout_within_page (splitTextToSize : ustr -> Z -> list ustr) (pageHeight : Z) (footer : ustr)
    (ops : list pdf_op) :
  Forall (fun op => (0 <= op_font_size op)%Z) ops ->
  exists body, drawn (exportTaskToPdf_layout splitTextToSize pageHeight footer ops)
               = body ++ [DrawText footer (2 * pageHeight - 30)%Z] /\
    (forall d y, In d body -> draw_y d = Some y -> (40 <= y <= 560)%Z) /\
    drawn_texts body = flat_map (op_lines splitTextToSize) ops.
Proof.
  intros Hf. exists (drawn (layout_ops splitTextToSize ops)). split; [reflexivity |].
  unfold layout_ops.
  assert (H0 : layout_inv (mkLayout 40 [])) by (split; [cbn; lia | intros d y []]).
  destruct (run_ops_inv splitTextToSize ops _ Hf H0) as [[_ H1] H2]. split; [exact H1 | exact H2].
Qed.

Lemma layout_within_page_witness :
  let split := fun (t : ustr) (_ : Z) => repeat t 30 in
  let ops := [OpText (u "Task") 18; OpGap; OpText (u "Status: In Progress") 10; OpGap; OpLine;
              OpText (u "Description") 12; OpText (u "line") 10; OpGap; OpLine] in
  let footer := u "Exported on Oct 14, 2026 10:00" in
  Forall (fun op => (0 <= op_font_size op)%Z) ops /\
  In NewPage (drawn (exportTaskToPdf_layout split 297 footer ops)) /\
  exists body, drawn (exportTaskToPdf_layout split 297 footer ops) = body ++ [DrawText footer 564%Z] /\
    (forall d y, In d body -> draw_y d = Some y -> (40 <= y <= 560)%Z) /\
    drawn_texts body = flat_map (op_lines split) ops.
Proof.
  intros split ops footer. assert (Hf : Forall (fun op => (0 <= op_font_size op)%Z) ops)
    by (repeat constructor; cbn; lia).
  split; [exact Hf | split; [vm_compute; tauto | exact (layout_within_page split 297 footer ops Hf)]].
Defined.
